(** * Visual analytics notebooks: the dataset fetcher and the table glue

    A shallow embedding of the authored code of the two notebooks
    [select/feature_selection.ipynb] and [pyplot/pyplot.ipynb].

    The notebooks are consumers of libraries.  What they author is a small
    fetcher ([download_data], [download_all]), three load cells that read a
    file into a table and rename its columns, column selections, and one
    [savefig].  The operating system, the network, the zip decoder and the
    CSV parser are the environment: the file system and the network are a
    [world] value threaded through a state-and-exception monad, the two
    decoders are section variables. *)

From Stdlib Require Import Strings.Byte Strings.Ascii Strings.String.
From stdpp Require Import base strings list gmap.

Open Scope string_scope.
Open Scope list_scope.

(** ** Exceptions and outcomes *)

(** The Python exceptions the modelled calls can raise. *)
Inductive exn : Type :=
  | FileNotFoundError
  | FileExistsError
  | NotADirectoryError
  | IsADirectoryError
  | NoSpaceError                      (* OSError, errno ENOSPC *)
  | ConnectionError
  | HTTPTimeout
  | BadZipFile
  | ValueError
  | KeyError (key : string)
  | NameError (var : string)
  | TypeError.

Inductive outcome (A : Type) : Type :=
  | Ok (a : A)
  | Raise (e : exn).
Arguments Ok {A} a.
Arguments Raise {A} e.

(** ** Path strings: [os.path.join] and the split into components *)

Definition sep : ascii := "/"%char.

Definition startswith_sep (s : string) : bool :=
  match s with
  | String c _ => Ascii.eqb c sep
  | EmptyString => false
  end.

Fixpoint endswith_sep (s : string) : bool :=
  match s with
  | EmptyString => false
  | String c EmptyString => Ascii.eqb c sep
  | String _ s' => endswith_sep s'
  end.

Definition is_empty (s : string) : bool :=
  match s with EmptyString => true | _ => false end.

(** One round of the loop of [posixpath.join]:
    [if b.startswith(sep): path = b
     elif not path or path.endswith(sep): path += b
     else: path += sep + b]. *)
Definition os_path_join (path b : string) : string :=
  if startswith_sep b then b
  else if is_empty path || endswith_sep path then path +:+ b
  else path +:+ "/" +:+ b.

(** [os.path.join(a, *p)]. *)
Definition os_path_joinl (a : string) (p : list string) : string :=
  fold_left os_path_join p a.

(** [s.split('/')]: never empty, ["a//b"] gives [["a"; ""; "b"]]. *)
Fixpoint split_sep (s : string) : list string :=
  match s with
  | EmptyString => [""]
  | String c s' =>
      if Ascii.eqb c sep then "" :: split_sep s'
      else match split_sep s' with
           | h :: t => String c h :: t
           | [] => [String c ""]
           end
  end.

(** A plain file name: one component, and not a special one. *)
Fixpoint has_sep (s : string) : bool :=
  match s with
  | EmptyString => false
  | String c s' => Ascii.eqb c sep || has_sep s'
  end.

Definition special (c : string) : bool :=
  String.eqb c "" || String.eqb c "." || String.eqb c "..".

Definition plain_name (s : string) : bool :=
  negb (has_sep s) && negb (special s).

(** ** The world *)

(** A location is the list of directory names from the root, innermost
    first: the parent of [c :: d] is [d], and the root is [[]]. *)
Abbreviation loc := (list string).

Inductive node : Type :=
  | Dir
  | File (content : list byte).

(** The primitive calls, in the order they are made. *)
Inductive event : Type :=
  | EvExists (path : string)
  | EvMkdir (path : string)
  | EvGet (url : string)
  | EvOpenWB (path : string)
  | EvWrite (path : string) (data : list byte)
  | EvOpenRB (path : string)
  | EvExtractAll (target : string)
  | EvPrint (line : string).

Record world : Type := {
  fs : gmap loc node;                       (* the file system *)
  cwd : loc;                                (* the working directory *)
  disk_free : nat;                          (* bytes that can still be written *)
  pending : list (outcome (list byte));     (* what the network answers next *)
  log : list event                          (* calls made so far *)
}.

Definition set_fs (f : gmap loc node) (w : world) : world :=
  {| fs := f; cwd := cwd w; disk_free := disk_free w;
     pending := pending w; log := log w |}.
Definition set_disk_free (n : nat) (w : world) : world :=
  {| fs := fs w; cwd := cwd w; disk_free := n;
     pending := pending w; log := log w |}.
Definition set_pending (p : list (outcome (list byte))) (w : world) : world :=
  {| fs := fs w; cwd := cwd w; disk_free := disk_free w;
     pending := p; log := log w |}.
Definition emit (e : event) (w : world) : world :=
  {| fs := fs w; cwd := cwd w; disk_free := disk_free w;
     pending := pending w; log := log w ++ [e] |}.

(** ** The monad: state that survives an exception *)

(** A computation over a state [S] returns a value or raises, and in both
    cases hands back the state it reached: what a Python call did before it
    raised stays done. *)
Definition ME (S A : Type) : Type := S → outcome A * S.

Definition ret {S A} (a : A) : ME S A := λ s, (Ok a, s).
Definition raise {S A} (e : exn) : ME S A := λ s, (Raise e, s).
Definition bind {S A B} (m : ME S A) (k : A → ME S B) : ME S B :=
  λ s, match m s with
       | (Ok a, s') => k a s'
       | (Raise e, s') => (Raise e, s')
       end.
Definition get_state {S} : ME S S := λ s, (Ok s, s).
Definition modify {S} (f : S → S) : ME S unit := λ s, (Ok tt, f s).
Definition lift {S A} (o : outcome A) : ME S A := λ s, (o, s).

#[global] Instance ME_ret {S} : MRet (ME S) := @ret S.
#[global] Instance ME_bind {S} : MBind (ME S) := λ A B k m, bind m k.

(** The fetcher and the library calls run over the world alone. *)
Abbreviation M := (ME world).
Definition get_world : M world := get_state.

(** [for x in xs: body(x)]. *)
Fixpoint for_each {S A} (xs : list A) (body : A → ME S unit) : ME S unit :=
  match xs with
  | [] => ret tt
  | x :: xs' => body x ;; for_each xs' body
  end.

(** ** Path resolution *)

(** Walk the components from [cur].  Every directory that is walked through
    has to be one; the location reached is not looked at. *)
Fixpoint walk (f : gmap loc node) (cur : loc) (cs : list string) : outcome loc :=
  match cs with
  | [] => Ok cur
  | c :: cs' =>
      match f !! cur with
      | Some Dir =>
          if String.eqb c "" || String.eqb c "." then walk f cur cs'
          else if String.eqb c ".." then walk f (tail cur) cs'
          else walk f (c :: cur) cs'
      | Some (File _) => Raise NotADirectoryError
      | None => Raise FileNotFoundError
      end
  end.

Definition start (w : world) (p : string) : loc :=
  if startswith_sep p then [] else cwd w.

(** The location a path names in [w]; the empty path names nothing. *)
Definition resolve (w : world) (p : string) : outcome loc :=
  if is_empty p then Raise FileNotFoundError
  else walk (fs w) (start w p) (split_sep p).

(** [mkdir] accepts trailing separators: ["data/"] creates [data]. *)
Fixpoint drop_trailing_empty (cs : list string) : list string :=
  match cs with
  | [] => []
  | c :: cs' =>
      match drop_trailing_empty cs' with
      | [] => if String.eqb c "" then [] else [c]
      | r => c :: r
      end
  end.

Definition resolve_new (w : world) (p : string) : outcome loc :=
  if is_empty p then Raise FileNotFoundError
  else walk (fs w) (start w p) (drop_trailing_empty (split_sep p)).

(** [os.path.normpath], as a location: no directory is looked at. *)
Fixpoint lexical (cur : loc) (cs : list string) : loc :=
  match cs with
  | [] => cur
  | c :: cs' =>
      if String.eqb c "" || String.eqb c "." then lexical cur cs'
      else if String.eqb c ".." then lexical (tail cur) cs'
      else lexical (c :: cur) cs'
  end.

Definition norm_loc (w : world) (p : string) : loc :=
  lexical (start w p) (split_sep p).

(** ** Primitive operations on locations *)

(** Permissions are not part of the world: what the process reaches it
    may read and write.  A primitive fails for what is or is not at a
    location and for a disk that is full. *)

Definition exists_at (w : world) (l : loc) : bool :=
  match fs w !! l with Some _ => true | None => false end.

Definition is_dir_at (w : world) (l : loc) : bool :=
  match fs w !! l with Some Dir => true | _ => false end.

(** The parent of a new entry has to be a directory. *)
Definition parent_check (w : world) (l : loc) : outcome unit :=
  match l with
  | [] => Raise FileNotFoundError
  | _ :: d =>
      match fs w !! d with
      | Some Dir => Ok tt
      | Some (File _) => Raise NotADirectoryError
      | None => Raise FileNotFoundError
      end
  end.

Definition mkdir_at (l : loc) : M unit := λ w,
  match fs w !! l with
  | Some _ => (Raise FileExistsError, w)
  | None =>
      match parent_check w l with
      | Ok _ => (Ok tt, set_fs (<[l := Dir]> (fs w)) w)
      | Raise e => (Raise e, w)
      end
  end.

(** Opening for writing creates the file, or empties the one that is
    there and gives its bytes back to the disk. *)
Definition truncate_at (l : loc) : M unit := λ w,
  match fs w !! l with
  | Some Dir => (Raise IsADirectoryError, w)
  | Some (File old) =>
      (Ok tt, set_disk_free (disk_free w + length old)
                (set_fs (<[l := File []]> (fs w)) w))
  | None =>
      match parent_check w l with
      | Ok _ => (Ok tt, set_fs (<[l := File []]> (fs w)) w)
      | Raise e => (Raise e, w)
      end
  end.

(** Writing appends at the end of the file.  When the disk fills up the
    bytes that fitted stay in the file and the call raises. *)
Definition append_at (l : loc) (data : list byte) : M unit := λ w,
  match fs w !! l with
  | Some (File old) =>
      if decide (length data ≤ disk_free w)%nat
      then (Ok tt, set_disk_free (disk_free w - length data)
                     (set_fs (<[l := File (old ++ data)]> (fs w)) w))
      else (Raise NoSpaceError,
            set_disk_free 0
              (set_fs (<[l := File (old ++ take (disk_free w) data)]> (fs w)) w))
  | Some Dir => (Raise IsADirectoryError, w)
  | None => (Raise FileNotFoundError, w)
  end.

Definition read_at (l : loc) : M (list byte) := λ w,
  match fs w !! l with
  | Some (File b) => (Ok b, w)
  | Some Dir => (Raise IsADirectoryError, w)
  | None => (Raise FileNotFoundError, w)
  end.

(** [os.makedirs], on a location that is not there: the missing ancestors
    are created from the outermost one inwards. *)
Fixpoint makedirs_at (l : loc) : M unit :=
  match l with
  | [] => mkdir_at []
  | c :: d =>
      w ← get_world ;
      (if exists_at w d then ret tt else makedirs_at d) ;;
      mkdir_at (c :: d)
  end.

(** ** The library calls of the notebooks *)

Definition resolving (p : string) : M loc := λ w, (resolve w p, w).
Definition resolving_new (p : string) : M loc := λ w, (resolve_new w p, w).

(** [os.path.exists(path)]: any failure to reach the path is [False]. *)
Definition os_path_exists (path : string) : M bool :=
  modify (emit (EvExists path)) ;;
  w ← get_world ;
  ret (match resolve w path with
       | Ok l => exists_at w l
       | Raise _ => false
       end).

(** [os.mkdir(path)]. *)
Definition os_mkdir (path : string) : M unit :=
  modify (emit (EvMkdir path)) ;;
  l ← resolving_new path ;
  mkdir_at l.

Record response : Type := { content : list byte }.

(** [requests.get(url)]: the next answer of the network, or the exception
    the library raises when there is none. *)
Definition requests_get (url : string) : M response :=
  modify (emit (EvGet url)) ;;
  w ← get_world ;
  match pending w with
  | [] => raise ConnectionError
  | Ok body :: rest => modify (set_pending rest) ;; ret {| content := body |}
  | Raise e :: rest => modify (set_pending rest) ;; raise e
  end.

(** An open binary file: the path it was opened with and where it is. *)
Record handle : Type := { hpath : string; hloc : loc }.

(** The location [open(path, 'wb')] creates or empties.  A path that
    ends in a separator names a directory: the system walks the
    directories up to the last name and then refuses with [EISDIR],
    whatever is or is not at that name. *)
Definition resolve_wb (w : world) (p : string) : outcome loc :=
  if endswith_sep p then
    match walk (fs w) (start w p)
            (removelast (drop_trailing_empty (split_sep p))) with
    | Ok d =>
        match fs w !! d with
        | Some Dir => Raise IsADirectoryError
        | Some (File _) => Raise NotADirectoryError
        | None => Raise FileNotFoundError
        end
    | Raise e => Raise e
    end
  else resolve w p.

Definition resolving_wb (p : string) : M loc := λ w, (resolve_wb w p, w).

(** [open(path, 'wb')]. *)
Definition open_wb (path : string) : M handle :=
  modify (emit (EvOpenWB path)) ;;
  l ← resolving_wb path ;
  truncate_at l ;;
  ret {| hpath := path; hloc := l |}.

(** [f.write(data)]. *)
Definition file_write (f : handle) (data : list byte) : M unit :=
  modify (emit (EvWrite (hpath f) data)) ;;
  append_at (hloc f) data.

(** Reading a whole file, as the parsers and the zip reader do. *)
Definition read_file (path : string) : M (list byte) :=
  modify (emit (EvOpenRB path)) ;;
  l ← resolving path ;
  read_at l.

(** What a later reader finds at [path]. *)
Definition file_content (w : world) (path : string) : option (list byte) :=
  match resolve w path with
  | Ok l => match fs w !! l with Some (File b) => Some b | _ => None end
  | Raise _ => None
  end.

Definition isdir (w : world) (path : string) : bool :=
  match resolve w path with
  | Ok l => is_dir_at w l
  | Raise _ => false
  end.

(** [plt.savefig(fname)] with the rendered image: the file is opened for
    writing and the image written; no directory is created. *)
Definition savefig (fname : string) (image : list byte) : M unit :=
  f ← open_wb fname ;
  file_write f image.

(** [print(line)]. *)
Definition print {S} (out : event → S → S) (line : string) : ME S unit :=
  modify (out (EvPrint line)).

(** ** The fetcher of [feature_selection.ipynb] *)

Definition OCCUPANCY : string * string :=
  ("http://bit.ly/ddl-occupancy-dataset", "occupancy.zip").
Definition CREDIT : string * string :=
  ("http://bit.ly/ddl-credit-dataset", "credit.xls").
Definition CONCRETE : string * string :=
  ("http://bit.ly/ddl-concrete-data", "concrete.xls").

(** [def download_data(url, name, path='data')]. *)
Definition download_data (url name path : string) : M unit :=
  ex ← os_path_exists path ;
  (if negb ex then os_mkdir path else ret tt) ;;
  response ← requests_get url ;
  f ← open_wb (os_path_join path name) ;
  file_write f (content response).

(** An opened archive: its members in archive order.  A member whose
    data does not decompress has no bytes. *)
Record ZipFile : Type := {
  zpath : string;
  members : list (string * option (list byte))
}.

(** [ZipFile._extract_member] keeps of a member name the components that
    are not empty, [.] or [..]. *)
Definition arcname (filename : string) : list string :=
  List.filter (λ c, negb (special c)) (split_sep filename).

Definition extract_member (target : string)
    (m : string * option (list byte)) : M unit :=
  w ← get_world ;
  let l : loc := rev (arcname m.1) ++ norm_loc w target in
  (if exists_at w (tail l) then ret tt else makedirs_at (tail l)) ;;
  if endswith_sep m.1
  then w' ← get_world ; if is_dir_at w' l then ret tt else mkdir_at l
  else truncate_at l ;;
       match m.2 with
       | Some data => append_at l data
       | None => raise BadZipFile
       end.

(** [z.extractall(target)]. *)
Definition extractall (z : ZipFile) (target : string) : M unit :=
  modify (emit (EvExtractAll target)) ;;
  for_each (members z) (extract_member target).

Section Notebooks.

(** The decoders of the libraries. *)
Variable zip_decode : list byte → option (list (string * option (list byte))).

(** [zipfile.ZipFile(path)]. *)
Definition zipfile_ZipFile (path : string) : M ZipFile :=
  bs ← read_file path ;
  match zip_decode bs with
  | Some ms => ret {| zpath := path; members := ms |}
  | None => raise BadZipFile
  end.

(** [def download_all(path='data')]. *)
Definition download_all (path : string) : M unit :=
  for_each [OCCUPANCY; CREDIT; CONCRETE]
    (λ d, download_data d.1 d.2 path) ;;
  z ← zipfile_ZipFile (os_path_join path "occupancy.zip") ;
  extractall z (os_path_join path "occupancy").

(** *** Tables *)

Variable cell : Type.

(** A table is its row labels and its columns in order; a column is a
    label and the values of the rows. *)
Record DataFrame : Type := {
  index : list cell;
  cols : list (string * list cell)
}.

Record Series : Type := {
  sname : string;
  sindex : list cell;
  svalues : list cell
}.

Definition columns (df : DataFrame) : list string := (cols df).*1.

(** The values of row [i], column by column. *)
Definition row (df : DataFrame) (i : nat) : list (option cell) :=
  (λ c : string * list cell, c.2 !! i) <$> cols df.

(** [df.columns = names]: the labels are replaced position by position;
    a list of another length is refused. *)
Definition set_columns (df : DataFrame) (names : list string) : outcome DataFrame :=
  if decide (length names = length (cols df))
  then Ok {| index := index df; cols := zip names (cols df).*2 |}
  else Raise ValueError.

Definition labelled (name : string) (df : DataFrame) : list (string * list cell) :=
  List.filter (λ c : string * list cell, String.eqb c.1 name) (cols df).

(** [df[[n1, ..., nk]]]: the columns with these labels, in the order asked. *)
Fixpoint select (df : DataFrame) (names : list string)
    : outcome (list (string * list cell)) :=
  match names with
  | [] => Ok []
  | n :: ns =>
      match labelled n df with
      | [] => Raise (KeyError n)
      | cs => match select df ns with
              | Ok r => Ok (cs ++ r)
              | Raise e => Raise e
              end
      end
  end.

Definition getitem_list (df : DataFrame) (names : list string) : outcome DataFrame :=
  match select df names with
  | Ok cs => Ok {| index := index df; cols := cs |}
  | Raise e => Raise e
  end.

(** What a notebook variable can hold. *)
Inductive value : Type :=
  | VStr (s : string)
  | VFrame (df : DataFrame)
  | VSeries (s : Series).

(** [df[name]]: a series when one column has the label, a table when
    several have. *)
Definition getitem (df : DataFrame) (name : string) : outcome value :=
  match labelled name df with
  | [] => Raise (KeyError name)
  | [c] => Ok (VSeries {| sname := c.1; sindex := index df; svalues := c.2 |})
  | cs => Ok (VFrame {| index := index df; cols := cs |})
  end.

Variable csv_parse : list byte → outcome DataFrame.
Variable excel_parse : nat → list byte → outcome DataFrame.

(** [pd.read_csv(path, sep=',')]. *)
Definition read_csv (path : string) : M DataFrame :=
  bs ← read_file path ;
  lift (csv_parse bs).

(** [pd.read_excel(path, header=h)]. *)
Definition read_excel (path : string) (header : nat) : M DataFrame :=
  bs ← read_file path ;
  lift (excel_parse header bs).

(** *** The cells *)

(** The global names of a notebook, next to the world. *)
Abbreviation N := (ME (gmap string value * world)).

Definition io {A} (m : M A) : N A := λ s,
  match m s.2 with (r, w') => (r, (s.1, w')) end.

Definition assign (x : string) (v : value) : N unit :=
  modify (λ s, (<[x := v]> s.1, s.2)).

Definition var (x : string) : N value := λ s,
  match s.1 !! x with
  | Some v => (Ok v, s)
  | None => (Raise (NameError x), s)
  end.

Definition as_str (v : value) : outcome string :=
  match v with VStr s => Ok s | _ => Raise TypeError end.
Definition as_frame (v : value) : outcome DataFrame :=
  match v with VFrame df => Ok df | _ => Raise TypeError end.

(** [path='data'; download_all(path)]. *)
Definition cell_fetch : N unit :=
  assign "path" (VStr "data") ;;
  path ← var "path" ;
  path ← lift (as_str path) ;
  io (download_all path).

Definition occupancy_columns : list string :=
  ["date"; "temp"; "humid"; "light"; "co2"; "hratio"; "occupied"].

(** The cell that loads the room occupancy dataset. *)
Definition cell_load_occupancy : N unit :=
  assign "occupancy"
    (VStr (os_path_joinl "data" ["occupancy"; "datatraining.txt"])) ;;
  p ← var "occupancy" ;
  p ← lift (as_str p) ;
  df ← io (read_csv p) ;
  assign "occupancy" (VFrame df) ;;
  occupancy ← var "occupancy" ;
  occupancy ← lift (as_frame occupancy) ;
  renamed ← lift (set_columns occupancy occupancy_columns) ;
  assign "occupancy" (VFrame renamed).

Definition feature_columns : list string :=
  ["temp"; "humid"; "light"; "co2"; "hratio"].

(** The cell that separates features and targets. *)
Definition cell_separate : N unit :=
  occupancy ← var "occupancy" ;
  occupancy ← lift (as_frame occupancy) ;
  features ← lift (getitem_list occupancy feature_columns) ;
  assign "features" (VFrame features) ;;
  occupancy ← var "occupancy" ;
  occupancy ← lift (as_frame occupancy) ;
  labels ← lift (getitem occupancy "occupied") ;
  assign "labels" labels.

Definition credit_columns : list string :=
  ["id"; "limit"; "sex"; "edu"; "married"; "age"; "apr_delay"; "may_delay";
   "jun_delay"; "jul_delay"; "aug_delay"; "sep_delay"; "apr_bill"; "may_bill";
   "jun_bill"; "jul_bill"; "aug_bill"; "sep_bill"; "apr_pay"; "may_pay";
   "jun_pay"; "jul_pay"; "aug_pay"; "sep_pay"; "default"].

Definition concrete_columns : list string :=
  ["cement"; "slag"; "ash"; "water"; "splast";
   "coarse"; "fine"; "age"; "strength"].

(** The two loads of the exercise cell. *)
Definition cell_load_credit : N unit :=
  assign "credit" (VStr (os_path_joinl "data" ["credit.xls"])) ;;
  p ← var "credit" ;
  p ← lift (as_str p) ;
  df ← io (read_excel p 1) ;
  assign "credit" (VFrame df) ;;
  credit ← var "credit" ;
  credit ← lift (as_frame credit) ;
  renamed ← lift (set_columns credit credit_columns) ;
  assign "credit" (VFrame renamed).

Definition cell_load_concrete : N unit :=
  df ← io (read_excel (os_path_joinl "data" ["concrete.xls"]) 0) ;
  assign "concrete" (VFrame df) ;;
  concrete ← var "concrete" ;
  concrete ← lift (as_frame concrete) ;
  renamed ← lift (set_columns concrete concrete_columns) ;
  assign "concrete" (VFrame renamed).

Definition credit_feature_columns : list string :=
  ["limit"; "sex"; "edu"; "married"; "age"; "apr_delay"; "may_delay";
   "jun_delay"; "jul_delay"; "aug_delay"; "sep_delay"; "apr_bill"; "may_bill";
   "jun_bill"; "jul_bill"; "aug_bill"; "sep_bill"; "apr_pay"; "may_pay";
   "jun_pay"; "jul_pay"; "aug_pay"; "sep_pay"].

Definition concrete_feature_columns : list string :=
  ["cement"; "slag"; "ash"; "water"; "splast"; "coarse"; "fine"; "age"].

(** [cred_features = credit[[...]]; cred_labels = credit['default']]. *)
Definition cell_separate_credit : N unit :=
  credit ← var "credit" ;
  credit ← lift (as_frame credit) ;
  cred_features ← lift (getitem_list credit credit_feature_columns) ;
  assign "cred_features" (VFrame cred_features) ;;
  credit ← var "credit" ;
  credit ← lift (as_frame credit) ;
  cred_labels ← lift (getitem credit "default") ;
  assign "cred_labels" cred_labels.

(** [conc_features = concrete[[...]]; conc_labels = concrete['strength']]. *)
Definition cell_separate_concrete : N unit :=
  concrete ← var "concrete" ;
  concrete ← lift (as_frame concrete) ;
  conc_features ← lift (getitem_list concrete concrete_feature_columns) ;
  assign "conc_features" (VFrame conc_features) ;;
  concrete ← var "concrete" ;
  concrete ← lift (as_frame concrete) ;
  conc_labels ← lift (getitem concrete "strength") ;
  assign "conc_labels" conc_labels.

(** The exercise cell: the credit data, then the concrete data. *)
Definition cell_exercise : N unit :=
  cell_load_credit ;;
  cell_separate_credit ;;
  cell_load_concrete ;;
  cell_separate_concrete.

(** What [list(v)] gives: the characters of a string, the column labels
    of a table, the values of a series. *)
Inductive listed : Type :=
  | Labels (names : list string)
  | Values (cells : list cell).

Fixpoint characters (s : string) : list string :=
  match s with
  | EmptyString => []
  | String c s' => String c "" :: characters s'
  end.

Definition py_list (v : value) : listed :=
  match v with
  | VStr s => Labels (characters s)
  | VFrame df => Labels (columns df)
  | VSeries s => Values (svalues s)
  end.

(** The cell [list(features)]. *)
Definition cell_list_features : N listed :=
  features ← var "features" ;
  ret (py_list features).

(** *** [pyplot.ipynb] *)

(** The cell that draws the two quadratics ends in
    [plt.savefig("figures/quadratics.png")]. *)
Definition cell_quadratics (image : list byte) : M unit :=
  savefig "figures/quadratics.png" image.

(** [for style in plt.style.available: print("- {}".format(style))]. *)
Definition cell_styles (available : list string) : M unit :=
  for_each available (λ style, print emit ("- " +:+ style)).

End Notebooks.

Arguments index {cell} _.
Arguments cols {cell} _.
Arguments Build_DataFrame {cell} _ _.
Arguments sname {cell} _.
Arguments sindex {cell} _.
Arguments svalues {cell} _.
Arguments Build_Series {cell} _ _ _.
Arguments columns {cell} _.
Arguments row {cell} _ _.
Arguments set_columns {cell} _ _.
Arguments labelled {cell} _ _.
Arguments select {cell} _ _.
Arguments getitem_list {cell} _ _.
Arguments getitem {cell} _ _.
Arguments VStr {cell} _.
Arguments VFrame {cell} _.
Arguments VSeries {cell} _.
Arguments as_str {cell} _.
Arguments as_frame {cell} _.
Arguments read_csv {cell} _ _.
Arguments read_excel {cell} _ _ _.
Arguments io {cell A} _.
Arguments assign {cell} _ _.
Arguments var {cell} _.
Arguments cell_fetch _ {cell}.
Arguments cell_load_occupancy {cell} _.
Arguments cell_separate {cell}.
Arguments cell_load_credit {cell} _.
Arguments cell_load_concrete {cell} _.
Arguments cell_separate_credit {cell}.
Arguments cell_separate_concrete {cell}.
Arguments cell_exercise {cell} _.
Arguments Labels {cell} _.
Arguments Values {cell} _.
Arguments py_list {cell} _.
Arguments cell_list_features {cell}.

(** ** Sample data *)

Module Sample.

Definition bytes (n : nat) : list byte := replicate n "x"%byte.

(** A machine with [/tmp] and a home directory, three answers waiting
    on the network. *)
Definition fresh : world :=
  {| fs := {[ [] := Dir; ["tmp"] := Dir; ["home"] := Dir ]};
     cwd := ["home"];
     disk_free := 64;
     pending := [Ok (bytes 3); Ok (bytes 4); Ok (bytes 5)];
     log := [] |}.

(** The same machine once [data] and [figures] are there. *)
Definition prepared : world :=
  {| fs := {[ [] := Dir; ["tmp"] := Dir; ["home"] := Dir;
              ["data"; "home"] := Dir; ["figures"; "home"] := Dir;
              ["occupancy.zip"; "data"; "home"] := File (bytes 9) ]};
     cwd := ["home"];
     disk_free := 64;
     pending := [Ok (bytes 3); Ok (bytes 3); Ok (bytes 5)];
     log := [] |}.

(** The network refuses the first request and would answer a second. *)
Definition offline : world :=
  {| fs := fs prepared; cwd := cwd prepared; disk_free := 64;
     pending := [Raise HTTPTimeout; Ok (bytes 3)]; log := [] |}.

(** The disk has room for two more bytes. *)
Definition full : world :=
  {| fs := fs prepared; cwd := cwd prepared; disk_free := 2;
     pending := pending prepared; log := [] |}.

(** A decoder that finds one data file and one directory in any archive. *)
Definition unzip (bs : list byte) : option (list (string * option (list byte))) :=
  Some [("datatraining.txt", Some bs); ("doc/", None)].

(** A parser that finds seven columns and two rows in any file. *)
Definition parse (bs : list byte) : outcome (DataFrame nat) :=
  Ok {| index := [1; 2];
        cols := [("date", [10; 11]); ("Temperature", [20; 21]);
                 ("Humidity", [30; 31]); ("Light", [40; 41]);
                 ("CO2", [50; 51]); ("HumidityRatio", [60; 61]);
                 ("Occupancy", [0; 1])] |}.

Definition parse_excel (header : nat) (bs : list byte) : outcome (DataFrame nat) :=
  Raise ValueError.


(** A parser that finds two columns where seven are expected. *)
Definition parse_narrow (bs : list byte) : outcome (DataFrame nat) :=
  Ok {| index := [1]; cols := [("a", [10]); ("b", [20])] |}.

(** A sheet of [n] columns and one row. *)
Definition sheet (n : nat) : DataFrame nat :=
  {| index := [0]; cols := (λ i, ("X", [i])) <$> seq 0 n |}.

(** A parser that finds the credit sheet under [header=1] and the
    concrete sheet otherwise. *)
Definition parse_sheets (header : nat) (bs : list byte) : outcome (DataFrame nat) :=
  if decide (header = 1) then Ok (sheet 25) else Ok (sheet 9).

(** The machine after the fetch cell. *)
Definition extracted : world := (download_all unzip "data" fresh).2.

(** The names of the notebook after the load cell. *)
Definition loaded : gmap string (value nat) :=
  (cell_load_occupancy parse (∅, extracted)).2.1.

End Sample.

(** ** Vocabulary of the statements *)

(** What [os.path.exists(p)] answers in [w]. *)
Definition path_exists (w : world) (p : string) : bool :=
  match resolve w p with
  | Ok l => exists_at w l
  | Raise _ => false
  end.

(** [os.path.isdir(path)] and [name in os.listdir(path)], for a file. *)
Definition has_entry (w : world) (path name : string) : bool :=
  match resolve w path with
  | Ok d =>
      is_dir_at w d &&
      match fs w !! (name :: d) with Some (File _) => true | _ => false end
  | Raise _ => false
  end.

(** The URLs requested, in order. *)
Definition gets (es : list event) : list string :=
  omap (λ e, match e with EvGet url => Some url | _ => None end) es.

(** The size of the file at [l], if there is one. *)
Definition old_size (w : world) (l : loc) : nat :=
  match fs w !! l with Some (File old) => length old | _ => 0 end.

(** Nothing in the notebooks deletes: directories stay directories and
    what exists keeps existing. *)
Record grows (w w' : world) : Prop := {
  grows_cwd : cwd w' = cwd w;
  grows_dir : ∀ l, fs w !! l = Some Dir → fs w' !! l = Some Dir;
  grows_ex : ∀ l, is_Some (fs w !! l) → is_Some (fs w' !! l)
}.

(** [touches l w w']: the world grew and nothing but [l] changed. *)
Definition touches (l : loc) (w w' : world) : Prop :=
  grows w w' ∧ ∀ x, x ≠ l → fs w' !! x = fs w !! x.

(** The world [w0] after the directory check of [download_data] in [w]. *)
Record ensured (path : string) (w w0 : world) : Prop := {
  ensured_cwd : cwd w0 = cwd w;
  ensured_pending : pending w0 = pending w;
  ensured_disk : disk_free w0 = disk_free w;
  ensured_log :
    log w0 = log w ++ EvExists path ::
               (if path_exists w path then [] else [EvMkdir path]);
  ensured_fs :
    if path_exists w path then fs w0 = fs w
    else ∃ d, resolve_new w path = Ok d ∧ fs w !! d = None ∧
              fs w0 = <[d := Dir]> (fs w)
}.

(** The kind of a call, without its arguments. *)
Inductive call : Type :=
  | CExists | CMkdir | CGet | COpenWB | CWrite | COpenRB | CExtractAll | CPrint.

Definition call_of (e : event) : call :=
  match e with
  | EvExists _ => CExists
  | EvMkdir _ => CMkdir
  | EvGet _ => CGet
  | EvOpenWB _ => COpenWB
  | EvWrite _ _ => CWrite
  | EvOpenRB _ => COpenRB
  | EvExtractAll _ => CExtractAll
  | EvPrint _ => CPrint
  end.

#[global] Instance call_eq_dec : EqDecision call.
Proof. solve_decision. Defined.

(** The calls made on the way from [w] to [w']. *)
Definition calls_since (w w' : world) : list call :=
  call_of <$> drop (length (log w)) (log w').

(** [within D w w']: the world grew and nothing outside the directory at
    [D] changed; [D] itself counts as inside. *)
Definition within (D : loc) (w w' : world) : Prop :=
  grows w w' ∧ ∀ x, ¬ D `suffix_of` x → fs w' !! x = fs w !! x.

(** Where [os.mkdir(path)] makes its directory, if it makes one. *)
Definition norm_new (w : world) (path : string) : loc :=
  lexical (start w path) (drop_trailing_empty (split_sep path)).

(** [quiet w w']: no call was logged and the network was left alone. *)
Definition quiet (w w' : world) : Prop :=
  log w' = log w ∧ pending w' = pending w.

(** [keeps R m]: every run of [m], completed or not, goes from a world to
    an [R]-related one. *)
Definition keeps {S A} (R : S → S → Prop) (m : ME S A) : Prop :=
  ∀ w r w', m w = (r, w') → R w w'.

(** A relation between worlds, for the states of a notebook. *)
Definition on_world {V} (R : world → world → Prop) (s s' : V * world) : Prop :=
  R s.2 s'.2.

(** [same_fs w w']: the file system was only read. *)
Definition same_fs (w w' : world) : Prop :=
  fs w' = fs w ∧ cwd w' = cwd w.

(** The calls one download makes after the directory check. *)
Definition download_events (d : string * string) (path : string)
    (body : list byte) : list event :=
  [EvGet d.1; EvOpenWB (os_path_join path d.2);
   EvWrite (os_path_join path d.2) body].

(** The lines printed, in order. *)
Definition printed (es : list event) : list string :=
  omap (λ e, match e with EvPrint line => Some line | _ => None end) es.

(** A printed line without its first two characters. *)
Definition strip_bullet (line : string) : string :=
  match line with
  | String _ (String _ s) => s
  | _ => ""
  end.

(** [logs P w w']: the calls made from [w] to [w'] all satisfy [P]. *)
Definition logs (P : event → Prop) (w w' : world) : Prop :=
  ∃ es, log w' = log w ++ es ∧ Forall P es.

(** A call that [download_data] can make. *)
Definition download_call (e : event) : Prop :=
  call_of e ∈ [CExists; CMkdir; CGet; COpenWB; CWrite].

(** [preserve X w w']: every entry of [w] at a location in [X] is in [w']
    as it was. *)
Definition preserve (X : loc → Prop) (w w' : world) : Prop :=
  cwd w' = cwd w ∧ ∀ x n, X x → fs w !! x = Some n → fs w' !! x = Some n.

#[global] Instance byte_eq_decision : EqDecision byte := Byte.byte_eq_dec.
#[global] Instance node_eq_dec : EqDecision node.
Proof. solve_decision. Defined.

(** A file system is well formed when the root is a directory and every
    other entry lies in a directory. *)
Definition parent_is_dir (f : gmap loc node) (l : loc) : Prop :=
  match l with
  | [] => f !! [] = Some Dir
  | _ :: d => f !! d = Some Dir
  end.

#[global] Instance parent_is_dir_dec (f : gmap loc node) (l : loc) :
  Decision (parent_is_dir f l).
Proof. destruct l; simpl; apply _. Defined.

Definition wf (w : world) : Prop :=
  map_Forall (λ l _, parent_is_dir (fs w) l) (fs w).

(** [wf_kept w w']: if [w] was well formed then so is [w']. *)
Definition wf_kept (w w' : world) : Prop := wf w → wf w'.

Section TableVocabulary.

Context {cell : Type}.

(** The table [df] under the labels [names]. *)
Definition renamed (df : DataFrame cell) (names : list string) : DataFrame cell :=
  {| index := index df; cols := zip names (cols df).*2 |}.

(** The shape of the cells that load a file into the variable [x]: the
    path is kept in [x] until the table is read. *)
Definition loading (x p0 : string) (rd : string → M (DataFrame cell))
    (names : list string) : ME (gmap string (value cell) * world) unit :=
  assign x (VStr p0) ;;
  p ← var x ;
  p ← lift (as_str p) ;
  df ← io (rd p) ;
  assign x (VFrame df) ;;
  t ← var x ;
  t ← lift (as_frame t) ;
  r ← lift (set_columns t names) ;
  assign x (VFrame r).

(** The shape of the cells that separate features and targets. *)
Definition separating (tbl : string) (sel : list string) (fvar lab lvar : string)
    : ME (gmap string (value cell) * world) unit :=
  t ← var tbl ;
  t ← lift (as_frame t) ;
  f ← lift (getitem_list t sel) ;
  assign fvar (VFrame f) ;;
  t ← var tbl ;
  t ← lift (as_frame t) ;
  l ← lift (getitem t lab) ;
  assign lvar l.

End TableVocabulary.

(** ** The monad, run *)

Lemma bind_run {S A B} (m : ME S A) (k : A → ME S B) (s : S) :
  (m ≫= k) s = match m s with
               | (Ok a, s') => k a s'
               | (Raise e, s') => (Raise e, s')
               end.
Proof. reflexivity. Qed.

Lemma bind_Ok {S A B} (m : ME S A) (k : A → ME S B) s b s' :
  (m ≫= k) s = (Ok b, s') ↔ ∃ a s1, m s = (Ok a, s1) ∧ k a s1 = (Ok b, s').
Proof.
  rewrite bind_run. split.
  - destruct (m s) as [[a|e] s1]; [eauto | discriminate].
  - intros (a & s1 & -> & Hk). exact Hk.
Qed.

Lemma bind_Raise {S A B} (m : ME S A) (k : A → ME S B) s e s' :
  (m ≫= k) s = (Raise e, s') ↔
  m s = (Raise e, s') ∨ ∃ a s1, m s = (Ok a, s1) ∧ k a s1 = (Raise e, s').
Proof.
  rewrite bind_run. split.
  - destruct (m s) as [[a|e0] s1]; [eauto | intros [= -> ->]; by left].
  - intros [-> | (a & s1 & -> & Hk)]; [reflexivity | exact Hk].
Qed.

(** ** Path strings *)

Lemma split_sep_cons (s : string) : ∃ h t, split_sep s = h :: t.
Proof.
  induction s as [|c s IH]; simpl; [eauto |].
  destruct (Ascii.eqb c sep); [eauto |].
  destruct IH as (h & t & ->). eauto.
Qed.

Lemma split_sep_app (a b : string) :
  split_sep (a +:+ String sep b) = split_sep a ++ split_sep b.
Proof.
  induction a as [|c a IH]; simpl; [reflexivity |].
  destruct (Ascii.eqb c sep); [by rewrite IH |].
  rewrite IH. destruct (split_sep_cons a) as (h & t & ->). reflexivity.
Qed.

Lemma split_sep_plain (s : string) : has_sep s = false → split_sep s = [s].
Proof.
  induction s as [|c s IH]; simpl; [reflexivity |].
  destruct (Ascii.eqb c sep); simpl; [discriminate |].
  intros H. by rewrite IH.
Qed.

Lemma endswith_sep_app (s : string) :
  endswith_sep s = true → ∃ s', s = s' +:+ "/".
Proof.
  induction s as [|c s IH]; simpl; [discriminate |].
  destruct s as [|c' s].
  - intros H. apply Ascii.eqb_eq in H. subst c. by exists "".
  - intros H. destruct (IH H) as (s' & Hs'). exists (String c s').
    rewrite Hs'. reflexivity.
Qed.

Lemma append_cons (x : ascii) (a b : string) :
  String x a +:+ b = String x (a +:+ b).
Proof. reflexivity. Qed.

Lemma append_assoc (a b c : string) : (a +:+ b) +:+ c = a +:+ (b +:+ c).
Proof.
  induction a as [|x a IH]; [reflexivity |].
  by rewrite !append_cons, IH.
Qed.

Lemma startswith_sep_app (a b : string) :
  a ≠ "" → startswith_sep (a +:+ b) = startswith_sep a.
Proof. destruct a; [congruence | reflexivity]. Qed.

Lemma is_empty_eq (s : string) : is_empty s = true ↔ s = "".
Proof. destruct s; simpl; split; congruence. Qed.

Lemma plain_name_relative (name : string) :
  plain_name name = true → startswith_sep name = false.
Proof.
  unfold plain_name. destruct name as [|c s]; simpl; [reflexivity |].
  destruct (Ascii.eqb c sep); simpl; [discriminate | reflexivity].
Qed.

Lemma plain_name_split (name : string) :
  plain_name name = true → split_sep name = [name] ∧ special name = false.
Proof.
  unfold plain_name. intros [H1 H2]%andb_true_iff.
  apply negb_true_iff in H1, H2. split; [by apply split_sep_plain | exact H2].
Qed.

(** Where [os.path.join] puts a relative name: after the components of
    [path], up to a separator that [path] already ends with. *)
Lemma join_relative (path name : string) :
  path ≠ "" → startswith_sep name = false →
  ∃ cs, (split_sep path = cs ∨ split_sep path = cs ++ [""]) ∧
        split_sep (os_path_join path name) = cs ++ split_sep name ∧
        startswith_sep (os_path_join path name) = startswith_sep path ∧
        is_empty (os_path_join path name) = false.
Proof.
  intros Hp Hn. unfold os_path_join. rewrite Hn.
  assert (is_empty path = false) as ->.
  { destruct path; [congruence | reflexivity]. }
  simpl. destruct (endswith_sep path) eqn:He.
  - destruct (endswith_sep_app _ He) as (p' & ->).
    exists (split_sep p'). split; [right; apply (split_sep_app p' "") |].
    rewrite append_assoc.
    split; [apply (split_sep_app p' name) |].
    split; [| by destruct p'].
    destruct p'; reflexivity.
  - exists (split_sep path). split; [by left |].
    split; [apply split_sep_app |].
    split; [by apply startswith_sep_app | by destruct path].
Qed.

(** ** Walking the file system *)

Lemma walk_app (f : gmap loc node) (cs1 cs2 : list string) (cur : loc) :
  walk f cur (cs1 ++ cs2) =
  match walk f cur cs1 with Ok d => walk f d cs2 | Raise e => Raise e end.
Proof.
  revert cur. induction cs1 as [|c cs1 IH]; intros cur; simpl; [reflexivity |].
  destruct (f !! cur) as [[|b]|]; try reflexivity.
  destruct (_ || _); [apply IH |]. destruct (String.eqb c ".."); apply IH.
Qed.

Lemma walk_mono (f f' : gmap loc node) (cs : list string) (cur d : loc) :
  (∀ l, f !! l = Some Dir → f' !! l = Some Dir) →
  walk f cur cs = Ok d → walk f' cur cs = Ok d.
Proof.
  intros Hle. revert cur. induction cs as [|c cs IH]; intros cur; simpl; [done |].
  destruct (f !! cur) as [[|b]|] eqn:E; try discriminate.
  rewrite (Hle _ E).
  destruct (_ || _); [apply IH |]. destruct (String.eqb c ".."); apply IH.
Qed.

Lemma walk_lexical (f : gmap loc node) (cs : list string) (cur d : loc) :
  walk f cur cs = Ok d → lexical cur cs = d.
Proof.
  revert cur. induction cs as [|c cs IH]; intros cur; simpl; [congruence |].
  destruct (f !! cur) as [[|b]|]; try discriminate.
  destruct (_ || _); [apply IH |]. destruct (String.eqb c ".."); apply IH.
Qed.

Lemma walk_skip_empty (f : gmap loc node) (d : loc) (cs : list string) :
  cs ≠ [] → walk f d ("" :: cs) = walk f d cs.
Proof.
  destruct cs as [|c cs]; [done |]. intros _. simpl.
  destruct (f !! d) as [[|b]|]; reflexivity.
Qed.

Lemma walk_cons (f : gmap loc node) (cur : loc) (c : string) (cs : list string) :
  walk f cur (c :: cs) =
  match f !! cur with
  | Some Dir =>
      if String.eqb c "" || String.eqb c "." then walk f cur cs
      else if String.eqb c ".." then walk f (tail cur) cs
      else walk f (c :: cur) cs
  | Some (File _) => Raise NotADirectoryError
  | None => Raise FileNotFoundError
  end.
Proof. reflexivity. Qed.

Lemma walk_trailing (f : gmap loc node) (cs : list string) (cur d : loc) :
  walk f cur (drop_trailing_empty cs) = Ok d → f !! d = Some Dir →
  walk f cur cs = Ok d.
Proof.
  revert cur. induction cs as [|c cs IH]; intros cur; [done |].
  cbn [drop_trailing_empty].
  destruct (drop_trailing_empty cs) as [|r rs] eqn:E.
  - destruct (String.eqb c "") eqn:Ec.
    + apply String.eqb_eq in Ec. subst c. intros [= ->] Hd.
      rewrite walk_cons, Hd. apply IH; [reflexivity | exact Hd].
    + rewrite (walk_cons f cur c []), (walk_cons f cur c cs).
      destruct (f !! cur) as [[|b]|]; try discriminate.
      destruct (_ || _); [apply IH |]. destruct (String.eqb c ".."); apply IH.
  - rewrite (walk_cons f cur c (r :: rs)), (walk_cons f cur c cs).
    destruct (f !! cur) as [[|b]|]; try discriminate.
    destruct (_ || _); [apply IH |]. destruct (String.eqb c ".."); apply IH.
Qed.

Lemma walk_plain (f : gmap loc node) (d : loc) (name : string) :
  special name = false →
  walk f d [name] = match f !! d with
                    | Some Dir => Ok (name :: d)
                    | Some (File _) => Raise NotADirectoryError
                    | None => Raise FileNotFoundError
                    end.
Proof.
  unfold special. intros H. simpl.
  destruct (f !! d) as [[|b]|]; try reflexivity.
  apply orb_false_iff in H as [H ->]. rewrite H. reflexivity.
Qed.

(** The first component of a walk is taken from a directory. *)
Lemma walk_from_dir (f : gmap loc node) (d l : loc) (c : string) (cs : list string) :
  walk f d (c :: cs) = Ok l → f !! d = Some Dir.
Proof. simpl. by destruct (f !! d) as [[|b]|]. Qed.

(** A path joined with a relative name is resolved through the path. *)
Lemma resolve_join (w : world) (path name : string) :
  path ≠ "" → startswith_sep name = false →
  resolve w (os_path_join path name) =
  match resolve w path with
  | Ok d => walk (fs w) d (split_sep name)
  | Raise e => Raise e
  end.
Proof.
  intros Hp Hn.
  destruct (join_relative path name Hp Hn) as (cs & Hcs & Hj & Hs & He).
  unfold resolve, start. rewrite He, Hs, Hj, walk_app.
  assert (is_empty path = false) as -> by (by destruct path).
  destruct Hcs as [-> | ->]; [reflexivity |].
  rewrite walk_app.
  destruct (walk (fs w) _ cs) as [d|e]; [| reflexivity].
  destruct (split_sep_cons name) as (h & t & ->).
  rewrite (walk_cons _ d ""), (walk_cons _ d h).
  destruct (fs w !! d) as [[|b]|] eqn:E; simpl; [| done | done].
  by rewrite E.
Qed.

Lemma lexical_join (cur : loc) (path name : string) :
  path ≠ "" → plain_name name = true →
  lexical cur (split_sep (os_path_join path name)) =
  name :: lexical cur (split_sep path).
Proof.
  intros Hp Hn.
  destruct (join_relative path name Hp (plain_name_relative _ Hn))
    as (cs & Hcs & -> & _ & _).
  destruct (plain_name_split _ Hn) as [-> Hsp].
  assert (∀ c l, lexical c (l ++ [""]) = lexical c l) as Hemp.
  { intros c l. revert c. induction l as [|x l IH]; intros c; simpl; [done |].
    destruct (_ || _); [apply IH |]. destruct (String.eqb x ".."); apply IH. }
  assert (∀ l c, lexical c (l ++ [name]) = name :: lexical c l) as Hlast.
  { induction l as [|x l IH]; intros c; simpl.
    - unfold special in Hsp. apply orb_false_iff in Hsp as [-> ->]. done.
    - destruct (_ || _); [apply IH |]. destruct (String.eqb x ".."); apply IH. }
  destruct Hcs as [-> | ->]; by rewrite Hlast, ?Hemp.
Qed.

(** ** Worlds that only grow *)

Lemma grows_refl (w : world) : grows w w.
Proof. by split. Qed.

Lemma grows_trans (w1 w2 w3 : world) : grows w1 w2 → grows w2 w3 → grows w1 w3.
Proof.
  intros [c1 d1 e1] [c2 d2 e2]. split; [congruence | auto | auto].
Qed.

Lemma grows_same_fs (w w' : world) :
  fs w' = fs w → cwd w' = cwd w → grows w w'.
Proof. intros Hf Hc. split; [done | by rewrite Hf | by rewrite Hf]. Qed.

Lemma resolve_grows (w w' : world) (p : string) (d : loc) :
  grows w w' → resolve w p = Ok d → resolve w' p = Ok d.
Proof.
  intros [Hc Hd _]. unfold resolve, start. rewrite Hc.
  destruct (is_empty p); [done |]. by apply walk_mono.
Qed.

Lemma path_exists_grows (w w' : world) (p : string) :
  grows w w' → path_exists w p = true → path_exists w' p = true.
Proof.
  intros Hg. unfold path_exists.
  destruct (resolve w p) as [l|e] eqn:E; [| done].
  rewrite (resolve_grows _ _ _ _ Hg E). unfold exists_at.
  destruct (fs w !! l) as [x|] eqn:El; [| done]. intros _.
  destruct (grows_ex _ _ Hg l) as [y ->]; [by rewrite El | done].
Qed.

(** ** The primitive operations, one location at a time *)

Lemma touches_refl (l : loc) (w : world) : touches l w w.
Proof. split; [apply grows_refl | done]. Qed.

Lemma insert_touches (l : loc) (n : node) (w w' : world) :
  fs w' = <[l := n]> (fs w) → cwd w' = cwd w →
  (fs w !! l = Some Dir → n = Dir) →
  touches l w w'.
Proof.
  intros Hf Hc Hn. split; [split |].
  - exact Hc.
  - intros x Hx. rewrite Hf. destruct (decide (l = x)) as [<- | Hne].
    + rewrite lookup_insert_eq. by rewrite (Hn Hx).
    + by rewrite lookup_insert_ne.
  - intros x Hx. rewrite Hf. destruct (decide (l = x)) as [<- | Hne].
    + rewrite lookup_insert_eq. eauto.
    + by rewrite lookup_insert_ne.
  - intros x Hx. rewrite Hf. by rewrite lookup_insert_ne.
Qed.

Lemma mkdir_at_touches (l : loc) (w w' : world) (r : outcome unit) :
  mkdir_at l w = (r, w') → touches l w w'.
Proof.
  unfold mkdir_at. destruct (fs w !! l) eqn:E.
  { intros [= <- <-]. apply touches_refl. }
  destruct (parent_check w l); intros [= <- <-]; [| apply touches_refl].
  apply (insert_touches l Dir); [done | done | done].
Qed.

Lemma truncate_at_touches (l : loc) (w w' : world) (r : outcome unit) :
  truncate_at l w = (r, w') → touches l w w'.
Proof.
  unfold truncate_at. destruct (fs w !! l) as [[|old]|] eqn:E.
  - intros [= <- <-]. apply touches_refl.
  - intros [= <- <-]. apply (insert_touches l (File [])); [done | done |].
    by rewrite E.
  - destruct (parent_check w l); intros [= <- <-]; [| apply touches_refl].
    apply (insert_touches l (File [])); [done | done |]. by rewrite E.
Qed.

Lemma append_at_touches (l : loc) (data : list byte) (w w' : world) (r : outcome unit) :
  append_at l data w = (r, w') → touches l w w'.
Proof.
  unfold append_at. destruct (fs w !! l) as [[|old]|] eqn:E.
  - intros [= <- <-]. apply touches_refl.
  - destruct (decide _); intros [= <- <-].
    + apply (insert_touches l (File (old ++ data))); [done | done |].
      by rewrite E.
    + apply (insert_touches l (File (old ++ take (disk_free w) data)));
        [done | done |]. by rewrite E.
  - intros [= <- <-]. apply touches_refl.
Qed.

Lemma truncate_at_Ok (l : loc) (w w' : world) :
  truncate_at l w = (Ok tt, w') →
  fs w !! l ≠ Some Dir ∧ fs w' = <[l := File []]> (fs w) ∧
  cwd w' = cwd w ∧ pending w' = pending w ∧ log w' = log w ∧
  disk_free w' = disk_free w + old_size w l.
Proof.
  unfold truncate_at, old_size. destruct (fs w !! l) as [[|old]|] eqn:E.
  - discriminate.
  - intros [= <-]. simpl. repeat split; done.
  - destruct (parent_check w l); intros [= <-]. simpl.
    repeat split; try done; lia.
Qed.

Lemma append_at_Ok (l : loc) (data : list byte) (w w' : world) :
  append_at l data w = (Ok tt, w') →
  ∃ old, fs w !! l = Some (File old) ∧ (length data ≤ disk_free w)%nat ∧
         fs w' = <[l := File (old ++ data)]> (fs w) ∧
         cwd w' = cwd w ∧ pending w' = pending w ∧ log w' = log w ∧
         disk_free w' = disk_free w - length data.
Proof.
  unfold append_at. destruct (fs w !! l) as [[|old]|] eqn:E; try discriminate.
  destruct (decide _); intros [= <-]. exists old. simpl. done.
Qed.

(** ** The library calls, run *)

Lemma os_path_exists_run (path : string) (w : world) :
  os_path_exists path w = (Ok (path_exists w path), emit (EvExists path) w).
Proof. reflexivity. Qed.

Lemma os_mkdir_Ok (path : string) (w w' : world) :
  os_mkdir path w = (Ok tt, w') →
  ∃ d, resolve_new w path = Ok d ∧ fs w !! d = None ∧
       fs w' = <[d := Dir]> (fs w) ∧ cwd w' = cwd w ∧
       pending w' = pending w ∧ disk_free w' = disk_free w ∧
       log w' = log w ++ [EvMkdir path].
Proof.
  intros H. unfold os_mkdir in H.
  apply bind_Ok in H as ([] & w0 & [= <-] & H).
  apply bind_Ok in H as (d & w0' & Hr & H).
  unfold resolving_new in Hr. injection Hr as Hr <-.
  change (resolve_new (emit (EvMkdir path) w) path)
    with (resolve_new w path) in Hr.
  unfold mkdir_at in H. simpl in H.
  destruct (fs w !! d) eqn:E; [discriminate |].
  destruct (parent_check _ d); [| discriminate].
  injection H as <-. exists d. simpl. done.
Qed.

Lemma requests_get_run (url : string) (w : world) :
  requests_get url w =
  match pending w with
  | [] => (Raise ConnectionError, emit (EvGet url) w)
  | Ok body :: rest =>
      (Ok {| content := body |}, set_pending rest (emit (EvGet url) w))
  | Raise e :: rest => (Raise e, set_pending rest (emit (EvGet url) w))
  end.
Proof.
  unfold requests_get. do 2 (rewrite bind_run; simpl).
  destruct (pending w) as [|[body|e] rest]; reflexivity.
Qed.

(** [open(p, 'wb')] opens what [p] resolves to, unless [p] ends in a
    separator: then it opens nothing. *)
Lemma resolve_wb_Ok (w : world) (p : string) (l : loc) :
  resolve_wb w p = Ok l → resolve w p = Ok l ∧ endswith_sep p = false.
Proof.
  unfold resolve_wb. destruct (endswith_sep p); [| done].
  destruct (walk _ _ _) as [d|e]; [| discriminate].
  destruct (fs w !! d) as [[|b]|]; discriminate.
Qed.

Lemma resolve_wb_plain (w : world) (p : string) :
  endswith_sep p = false → resolve_wb w p = resolve w p.
Proof. unfold resolve_wb. by intros ->. Qed.

(** A path that ends in a separator resolves to a directory. *)
Lemma resolve_trailing (w : world) (p : string) (l : loc) :
  endswith_sep p = true → resolve w p = Ok l → fs w !! l = Some Dir.
Proof.
  intros He. destruct (endswith_sep_app _ He) as (p' & ->).
  unfold resolve. destruct (is_empty _); [discriminate |].
  change (p' +:+ "/") with (p' +:+ String sep "").
  rewrite (split_sep_app p' ""), walk_app.
  destruct (walk (fs w) _ (split_sep p')) as [d|e]; [| discriminate].
  simpl. destruct (fs w !! d) as [[|b]|] eqn:E; try discriminate.
  by intros [= <-].
Qed.

Lemma resolve_wb_file (w : world) (p : string) (l : loc) :
  resolve w p = Ok l → fs w !! l ≠ Some Dir → resolve_wb w p = Ok l.
Proof.
  intros Hr Hl. rewrite resolve_wb_plain; [exact Hr |].
  destruct (endswith_sep p) eqn:He; [| reflexivity].
  destruct Hl. by apply (resolve_trailing w p).
Qed.

Lemma resolve_wb_emit (e : event) (w : world) (p : string) :
  resolve_wb (emit e w) p = resolve_wb w p.
Proof. reflexivity. Qed.

(** [with open(p, 'wb') as f: f.write(data)], when it completes. *)
Lemma write_Ok (p : string) (data : list byte) (w w' : world) :
  (f ← open_wb p ; file_write f data) w = (Ok tt, w') →
  ∃ l, resolve w p = Ok l ∧ fs w !! l ≠ Some Dir ∧
       fs w' = <[l := File data]> (fs w) ∧ cwd w' = cwd w ∧
       pending w' = pending w ∧
       log w' = log w ++ [EvOpenWB p; EvWrite p data] ∧
       disk_free w' + length data = disk_free w + old_size w l.
Proof.
  intros H. apply bind_Ok in H as (f & w1 & Ho & Hw).
  unfold open_wb in Ho.
  apply bind_Ok in Ho as ([] & w0 & [= <-] & Ho).
  apply bind_Ok in Ho as (l & w0' & Hr & Ho).
  unfold resolving_wb in Hr. injection Hr as Hr <-.
  rewrite resolve_wb_emit in Hr. apply resolve_wb_Ok in Hr as [Hr _].
  apply bind_Ok in Ho as ([] & w0' & Ht & [= <- <-]).
  apply truncate_at_Ok in Ht as (Hnd & Hf & Hc & Hp & Hl & Hd).
  unfold file_write in Hw.
  apply bind_Ok in Hw as ([] & w2 & [= <-] & Hw).
  apply append_at_Ok in Hw as (old & Ho & Hle & Hf' & Hc' & Hp' & Hl' & Hd').
  simpl in *. exists l. split; [exact Hr |]. split; [exact Hnd |].
  rewrite Hf, lookup_insert_eq in Ho. injection Ho as <-.
  split; [by rewrite Hf', Hf, insert_insert_eq |].
  split; [congruence |]. split; [congruence |].
  split; [by rewrite Hl', Hl, <- app_assoc |].
  change (old_size (emit (EvOpenWB p) w) l) with (old_size w l) in Hd. lia.
Qed.

(** ** [download_data], when it completes *)

Lemma ensured_grows (path : string) (w w0 : world) :
  ensured path w w0 → grows w w0.
Proof.
  intros [Hc _ _ _ Hf]. destruct (path_exists w path).
  - by apply grows_same_fs.
  - destruct Hf as (d & _ & Hd & Hf).
    apply (insert_touches d Dir w w0 Hf Hc). done.
Qed.

Lemma ensured_exists (path : string) (w w0 : world) :
  ensured path w w0 → path_exists w0 path = true.
Proof.
  intros He. pose proof (ensured_grows _ _ _ He) as Hg.
  destruct He as [Hc _ _ _ Hf].
  destruct (path_exists w path) eqn:Ex.
  - by apply (path_exists_grows w).
  - destruct Hf as (d & Hr & Hd & Hf).
    unfold path_exists, resolve. unfold resolve_new in Hr.
    destruct (is_empty path); [discriminate |].
    assert (fs w0 !! d = Some Dir) as Hdir.
    { rewrite Hf. apply lookup_insert_eq. }
    assert (start w0 path = start w path) as ->.
    { unfold start. by rewrite Hc. }
    rewrite (walk_trailing (fs w0) (split_sep path) _ d).
    + unfold exists_at. by rewrite Hdir.
    + apply (walk_mono (fs w)); [apply (grows_dir _ _ Hg) | exact Hr].
    + exact Hdir.
Qed.

Lemma download_data_Ok (url name path : string) (w w' : world) :
  download_data url name path w = (Ok tt, w') →
  ∃ w0 body rest l,
    ensured path w w0 ∧
    pending w = Ok body :: rest ∧ pending w' = rest ∧
    resolve w0 (os_path_join path name) = Ok l ∧
    fs w0 !! l ≠ Some Dir ∧
    fs w' = <[l := File body]> (fs w0) ∧
    cwd w' = cwd w ∧
    log w' = log w0 ++ [EvGet url; EvOpenWB (os_path_join path name);
                        EvWrite (os_path_join path name) body] ∧
    disk_free w' + length body = disk_free w + old_size w0 l.
Proof.
  intros H. unfold download_data in H.
  apply bind_Ok in H as (ex & w1 & He & H).
  rewrite os_path_exists_run in He. injection He as <- <-.
  apply bind_Ok in H as ([] & w0 & Hm & H).
  assert (ensured path w w0) as Hens.
  { destruct (path_exists w path) eqn:Ex; simpl in Hm.
    - injection Hm as <-. split; simpl; rewrite ?Ex; done.
    - apply os_mkdir_Ok in Hm as (d & Hr & Hd & Hf & Hc & Hp & Hk & Hl).
      split; simpl in *; rewrite ?Ex; try done.
      + by rewrite Hl, <- app_assoc.
      + by exists d. }
  apply bind_Ok in H as (resp & w2 & Hg & H).
  rewrite requests_get_run in Hg.
  destruct (pending w0) as [|[body|e] rest] eqn:Ep; try discriminate.
  injection Hg as <- <-.
  apply write_Ok in H as (l & Hr & Hnd & Hf & Hc & Hp & Hl & Hd).
  simpl in *. exists w0, body, rest, l.
  split; [exact Hens |].
  split; [by rewrite <- (ensured_pending _ _ _ Hens) |].
  split; [exact Hp |]. split; [exact Hr |]. split; [exact Hnd |].
  split; [exact Hf |].
  split; [by rewrite Hc, (ensured_cwd _ _ _ Hens) |].
  split; [by rewrite Hl, <- app_assoc |].
  rewrite <- (ensured_disk _ _ _ Hens). exact Hd.
Qed.

Lemma download_data_grows (url name path : string) (w w' : world) :
  download_data url name path w = (Ok tt, w') → grows w w'.
Proof.
  intros H. apply download_data_Ok in H
    as (w0 & body & rest & l & He & _ & _ & _ & Hnd & Hf & Hc & _).
  apply (grows_trans _ w0); [by apply (ensured_grows path) |].
  apply (insert_touches l (File body)); [exact Hf | | done].
  by rewrite (ensured_cwd _ _ _ He).
Qed.

Lemma download_data_exists (url name path : string) (w w' : world) :
  download_data url name path w = (Ok tt, w') → path_exists w' path = true.
Proof.
  intros H. pose proof H as H'. apply download_data_Ok in H
    as (w0 & body & rest & l & He & _ & _ & _ & Hnd & Hf & Hc & _).
  apply (path_exists_grows w0); [| by apply (ensured_exists path w)].
  apply (insert_touches l (File body)); [exact Hf | | done].
  by rewrite (ensured_cwd _ _ _ He).
Qed.

(** What the call wrote is what a reader of the joined path finds. *)
Lemma download_data_content (url name path : string) (w w' : world) :
  download_data url name path w = (Ok tt, w') →
  ∃ body rest, pending w = Ok body :: rest ∧
    file_content w' (os_path_join path name) = Some body.
Proof.
  intros H. apply download_data_Ok in H
    as (w0 & body & rest & l & He & Hp & _ & Hr & Hnd & Hf & Hc & _).
  exists body, rest. split; [exact Hp |].
  assert (touches l w0 w') as [Hg _].
  { apply (insert_touches l (File body)); [exact Hf | | done].
    by rewrite (ensured_cwd _ _ _ He). }
  unfold file_content. rewrite (resolve_grows _ _ _ _ Hg Hr), Hf.
  by rewrite lookup_insert_eq.
Qed.

Lemma gets_app (a b : list event) : gets (a ++ b) = gets a ++ gets b.
Proof. apply omap_app. Qed.

(** The call on a world where the directory and the file are already
    there, computed. *)
Lemma download_data_again (url name path : string) (w : world)
    (body old : list byte) (rest : list (outcome (list byte))) (l : loc) :
  path_exists w path = true →
  pending w = Ok body :: rest →
  resolve w (os_path_join path name) = Ok l →
  fs w !! l = Some (File old) →
  (length body ≤ disk_free w + length old)%nat →
  download_data url name path w =
  (Ok tt,
   {| fs := <[l := File body]> (fs w);
      cwd := cwd w;
      disk_free := disk_free w + length old - length body;
      pending := rest;
      log := log w ++ [EvExists path; EvGet url;
                       EvOpenWB (os_path_join path name);
                       EvWrite (os_path_join path name) body] |}).
Proof.
  intros Hex Hp Hr Hl Hle. unfold download_data.
  apply bind_Ok. exists true, (emit (EvExists path) w).
  split; [by rewrite os_path_exists_run, Hex |].
  apply bind_Ok. exists tt, (emit (EvExists path) w). split; [reflexivity |].
  apply bind_Ok. eexists _, _. split.
  { rewrite requests_get_run. simpl. rewrite Hp. reflexivity. }
  apply bind_Ok. eexists _, _. split.
  { unfold open_wb. apply bind_Ok. eexists _, _. split; [reflexivity |].
    apply bind_Ok. exists l. eexists. split.
    { unfold resolving_wb. f_equal. rewrite !resolve_wb_emit.
      apply (resolve_wb_file w); [exact Hr | by rewrite Hl]. }
    apply bind_Ok. eexists _, _. split; [| reflexivity].
    unfold truncate_at. simpl. rewrite Hl. reflexivity. }
  unfold file_write. apply bind_Ok. eexists _, _. split; [reflexivity |].
  unfold append_at. simpl. rewrite lookup_insert_eq.
  destruct (decide _) as [_ | Hn]; [| lia].
  unfold set_disk_free, set_fs, emit. simpl.
  rewrite insert_insert_eq, <- !app_assoc. reflexivity.
Qed.

(** ** The claims about [download_data] *)

(** C1.  A call of [download_data] that completes has asked the network
    once, for [url], and the file at [os.path.join(path, name)] then
    holds the bytes of that response and nothing else. *)
Theorem download_data_writes_response (url name path : string) (w w' : world) :
  download_data url name path w = (Ok tt, w') →
  ∃ body rest,
    pending w = Ok body :: rest ∧ pending w' = rest ∧
    gets (log w') = gets (log w) ++ [url] ∧
    file_content w' (os_path_join path name) = Some body.
Proof.
  intros H. destruct (download_data_content _ _ _ _ _ H) as (body & rest & Hp & Hc).
  apply download_data_Ok in H
    as (w0 & body' & rest' & l & He & Hp' & Hq & _ & _ & _ & _ & Hl & _).
  rewrite Hp in Hp'. injection Hp' as <- <-.
  exists body, rest. repeat split; try done.
  rewrite Hl, (ensured_log _ _ _ He), !gets_app.
  destruct (path_exists w path); simpl; by rewrite <- app_assoc.
Qed.

Lemma download_data_writes_response_witness :
  ∃ body rest,
    pending Sample.fresh = Ok body :: rest ∧
    file_content (download_data "u" "occupancy.zip" "data" Sample.fresh).2
      "data/occupancy.zip" = Some body.
Proof.
  destruct (download_data_writes_response "u" "occupancy.zip" "data"
              Sample.fresh
              (download_data "u" "occupancy.zip" "data" Sample.fresh).2)
    as (body & rest & Hp & _ & _ & Hc); [vm_compute; reflexivity |].
  exists body, rest. split; [exact Hp | exact Hc].
Defined.

(** C9.  The file is opened for writing, not for appending: after a call
    that completes the file holds the response alone, whatever it held
    before, and when the network gives the same bytes again a second call
    completes and leaves the file system and the free space as the first
    call left them. *)
Theorem download_data_idempotent (url name path : string) (w w1 : world)
    (body : list byte) (rest rest1 : list (outcome (list byte))) :
  download_data url name path w = (Ok tt, w1) →
  pending w = Ok body :: rest →
  pending w1 = Ok body :: rest1 →
  file_content w1 (os_path_join path name) = Some body ∧
  ∃ w2, download_data url name path w1 = (Ok tt, w2) ∧
        fs w2 = fs w1 ∧ disk_free w2 = disk_free w1 ∧
        file_content w2 (os_path_join path name) = Some body.
Proof.
  intros H Hp Hp1.
  pose proof (download_data_exists _ _ _ _ _ H) as Hex.
  assert (∃ l, resolve w1 (os_path_join path name) = Ok l ∧
               fs w1 !! l = Some (File body)) as (l & Hr & Hl).
  { apply download_data_Ok in H
      as (w0 & body' & rest' & l & He & Hp' & _ & Hr & Hnd & Hf & Hc & _).
    rewrite Hp in Hp'. injection Hp' as <- <-.
    exists l. split; [| by rewrite Hf, lookup_insert_eq].
    apply (resolve_grows w0); [| exact Hr].
    apply (insert_touches l (File body)); [exact Hf | | done].
    by rewrite (ensured_cwd _ _ _ He). }
  assert (file_content w1 (os_path_join path name) = Some body) as Hc.
  { unfold file_content. by rewrite Hr, Hl. }
  split; [exact Hc |].
  eexists. split.
  { apply (download_data_again url name path w1 body body rest1 l);
      [exact Hex | exact Hp1 | exact Hr | exact Hl | lia]. }
  simpl. split; [by apply insert_id |]. split; [lia |].
  unfold file_content, resolve, start in *. simpl.
  rewrite (insert_id _ _ _ Hl). exact Hc.
Qed.

Lemma download_data_idempotent_witness :
  ∃ w1 w2,
    download_data "u" "occupancy.zip" "data" Sample.prepared = (Ok tt, w1) ∧
    download_data "u" "occupancy.zip" "data" w1 = (Ok tt, w2) ∧
    fs w2 = fs w1.
Proof.
  set (w1 := (download_data "u" "occupancy.zip" "data" Sample.prepared).2).
  assert (download_data "u" "occupancy.zip" "data" Sample.prepared
          = (Ok tt, w1)) as H1 by (vm_compute; reflexivity).
  destruct (download_data_idempotent "u" "occupancy.zip" "data"
              Sample.prepared w1 (Sample.bytes 3)
              [Ok (Sample.bytes 3); Ok (Sample.bytes 5)]
              [Ok (Sample.bytes 5)] H1)
    as (_ & w2 & H2 & Hf & _); [vm_compute; reflexivity | vm_compute; reflexivity |].
  exists w1, w2. split; [exact H1 |]. split; [exact H2 | exact Hf].
Defined.

(** C3, as stated, fails: [os.path.join] drops [path] when [name] is
    absolute.  The call below completes, [data] is created, and the file
    is written to [/tmp], not into [data]. *)
Lemma download_data_absolute_name_escapes :
  let r := download_data "http://bit.ly/ddl-occupancy-dataset"
             "/tmp/occupancy.zip" "data" Sample.fresh in
  r.1 = Ok tt ∧
  isdir r.2 "data" = true ∧
  has_entry r.2 "data" "/tmp/occupancy.zip" = false ∧
  fs r.2 !! ["occupancy.zip"; "tmp"] = Some (File (Sample.bytes 3)) ∧
  fs r.2 !! ["occupancy.zip"; "data"; "home"] = None.
Proof. vm_compute. repeat split; discriminate. Qed.

(** C3, amended.  For a plain file name, a call of [download_data] that
    completes leaves [path] a directory with a file called [name] in it,
    and when [path] did not exist the call made it with [os.mkdir]. *)
Theorem download_data_ensures_directory (url name path : string) (w w' : world) :
  plain_name name = true →
  download_data url name path w = (Ok tt, w') →
  isdir w' path = true ∧
  has_entry w' path name = true ∧
  (path_exists w path = false → EvMkdir path ∈ log w').
Proof.
  intros Hn H. apply download_data_Ok in H
    as (w0 & body & rest & l & He & _ & _ & Hr & Hnd & Hf & Hc & Hl & _).
  pose proof (ensured_exists _ _ _ He) as Hex.
  assert (touches l w0 w') as [Hg _].
  { apply (insert_touches l (File body)); [exact Hf | | done].
    by rewrite (ensured_cwd _ _ _ He). }
  assert (path ≠ "") as Hne.
  { intros ->. discriminate Hex. }
  rewrite (resolve_join _ _ _ Hne (plain_name_relative _ Hn)) in Hr.
  destruct (plain_name_split _ Hn) as [Hs Hsp]. rewrite Hs in Hr.
  destruct (resolve w0 path) as [d|e] eqn:Ed; [| discriminate].
  rewrite (walk_plain _ _ _ Hsp) in Hr.
  destruct (fs w0 !! d) as [[|b]|] eqn:Edir; try discriminate.
  injection Hr as <-.
  pose proof (resolve_grows _ _ _ _ Hg Ed) as Ed'.
  pose proof (grows_dir _ _ Hg _ Edir) as Edir'.
  unfold isdir, has_entry, is_dir_at. rewrite Ed', Edir'.
  split; [done |]. split; [by rewrite Hf, lookup_insert_eq |].
  intros Hno. rewrite Hl, (ensured_log _ _ _ He), Hno.
  set_solver.
Qed.

Lemma download_data_ensures_directory_witness :
  has_entry (download_data "u" "occupancy.zip" "data" Sample.fresh).2
    "data" "occupancy.zip" = true.
Proof.
  apply (download_data_ensures_directory "u" "occupancy.zip" "data"
           Sample.fresh); [reflexivity | vm_compute; reflexivity].
Defined.

(** ** Composing runs *)

Section Keeps.

Context {S : Type} (R : S → S → Prop) `{!Reflexive R, !Transitive R}.

Lemma keeps_ret {A} (a : A) : keeps R (ret (S := S) a).
Proof. intros w r w' [= <- <-]. reflexivity. Qed.

Lemma keeps_raise {A} (e : exn) : keeps R (raise (S := S) (A := A) e).
Proof. intros w r w' [= <- <-]. reflexivity. Qed.

Lemma keeps_lift {A} (o : outcome A) : keeps R (lift (S := S) o).
Proof. intros w r w' [= <- <-]. reflexivity. Qed.

Lemma keeps_bind {A B} (m : ME S A) (k : A → ME S B) :
  keeps R m → (∀ a, keeps R (k a)) → keeps R (m ≫= k).
Proof.
  intros Hm Hk w r w'. rewrite bind_run.
  destruct (m w) as [[a|e] w1] eqn:E.
  - intros H. transitivity w1; [by apply (Hm _ _ _ E) | by apply (Hk a _ _ _ H)].
  - intros [= <- <-]. by apply (Hm _ _ _ E).
Qed.

(** [w ← get_world ; k w]: the continuation is run in the world it got. *)
Lemma keeps_get_world {B} (k : S → ME S B) :
  (∀ w r w', k w w = (r, w') → R w w') → keeps R (get_state ≫= k).
Proof. intros Hk w r w'. rewrite bind_run. simpl. apply Hk. Qed.

Lemma keeps_for_each {A} (xs : list A) (body : A → ME S unit) :
  (∀ x, keeps R (body x)) → keeps R (for_each xs body).
Proof.
  intros Hb. induction xs as [|x xs IH]; simpl.
  - apply keeps_ret.
  - apply keeps_bind; [apply Hb | intros _; exact IH].
Qed.

End Keeps.

#[global] Instance quiet_refl : Reflexive quiet.
Proof. by intros w. Qed.
#[global] Instance quiet_trans : Transitive quiet.
Proof. intros w1 w2 w3 [H1 H2] [H3 H4]. split; congruence. Qed.
#[global] Instance grows_reflexive : Reflexive grows.
Proof. intros w. apply grows_refl. Qed.
#[global] Instance grows_transitive : Transitive grows.
Proof. intros w1 w2 w3. apply grows_trans. Qed.

Lemma mkdir_at_quiet (l : loc) : keeps quiet (mkdir_at l).
Proof.
  intros w r w'. unfold mkdir_at. destruct (fs w !! l); [by intros [= <- <-] |].
  by destruct (parent_check w l); intros [= <- <-].
Qed.

Lemma truncate_at_quiet (l : loc) : keeps quiet (truncate_at l).
Proof.
  intros w r w'. unfold truncate_at.
  destruct (fs w !! l) as [[|old]|]; try by intros [= <- <-].
  by destruct (parent_check w l); intros [= <- <-].
Qed.

Lemma append_at_quiet (l : loc) (data : list byte) : keeps quiet (append_at l data).
Proof.
  intros w r w'. unfold append_at.
  destruct (fs w !! l) as [[|old]|]; try by intros [= <- <-].
  by destruct (decide _); intros [= <- <-].
Qed.

Lemma makedirs_at_quiet (l : loc) : keeps quiet (makedirs_at l).
Proof.
  induction l as [|c d IH]; simpl; [apply mkdir_at_quiet |].
  apply keeps_get_world; try apply _. intros w r w'.
  apply keeps_bind; try apply _.
  - destruct (exists_at w d); [apply keeps_ret; try apply _ | exact IH].
  - intros _. apply mkdir_at_quiet.
Qed.

Lemma extract_member_quiet (target : string) (m : string * option (list byte)) :
  keeps quiet (extract_member target m).
Proof.
  unfold extract_member. apply keeps_get_world; try apply _. intros w r w'.
  apply keeps_bind; try apply _.
  - destruct (exists_at w _); [apply keeps_ret; try apply _ | apply makedirs_at_quiet].
  - intros _. destruct (endswith_sep m.1).
    + apply keeps_get_world; try apply _. intros w0 r0 w0'.
      destruct (is_dir_at w0 _); [apply keeps_ret; try apply _ | apply mkdir_at_quiet].
    + apply keeps_bind; try apply _; [apply truncate_at_quiet |].
      intros _. destruct m.2; [apply append_at_quiet | apply keeps_raise; try apply _].
Qed.

Lemma extractall_log (z : ZipFile) (target : string) (w w' : world) (r : outcome unit) :
  extractall z target w = (r, w') →
  log w' = log w ++ [EvExtractAll target] ∧ pending w' = pending w.
Proof.
  unfold extractall. rewrite bind_run. simpl. intros H.
  apply (keeps_for_each quiet) in H; [exact H |].
  apply extract_member_quiet.
Qed.

Lemma norm_loc_join (w : world) (path name : string) :
  path ≠ "" → plain_name name = true →
  norm_loc w (os_path_join path name) = name :: norm_loc w path.
Proof.
  intros Hp Hn. unfold norm_loc, start.
  destruct (join_relative path name Hp (plain_name_relative _ Hn))
    as (cs & _ & _ & -> & _).
  by apply lexical_join.
Qed.

Lemma resolve_norm_loc (w : world) (p : string) (d : loc) :
  resolve w p = Ok d → norm_loc w p = d ∧ p ≠ "".
Proof.
  unfold resolve, norm_loc. destruct p as [|c p]; [discriminate |].
  simpl is_empty. cbv iota. intros H. split; [| done].
  by apply (walk_lexical (fs w)).
Qed.

Lemma resolve_join_plain (w : world) (path name : string) (d : loc) :
  plain_name name = true → resolve w path = Ok d → fs w !! d = Some Dir →
  resolve w (os_path_join path name) = Ok (name :: d).
Proof.
  intros Hn Hr Hd. destruct (resolve_norm_loc _ _ _ Hr) as [_ Hne].
  rewrite (resolve_join _ _ _ Hne (plain_name_relative _ Hn)), Hr.
  destruct (plain_name_split _ Hn) as [-> Hsp].
  by rewrite (walk_plain _ _ _ Hsp), Hd.
Qed.

(** A download under a plain name, when it completes. *)
Lemma download_data_plain (url name path : string) (w w' : world) :
  plain_name name = true →
  download_data url name path w = (Ok tt, w') →
  ∃ body rest d,
    pending w = Ok body :: rest ∧ pending w' = rest ∧
    resolve w' path = Ok d ∧ fs w' !! d = Some Dir ∧
    fs w' !! (name :: d) = Some (File body) ∧
    grows w w' ∧
    (path_exists w path = true → ∀ x, x ≠ name :: d → fs w' !! x = fs w !! x) ∧
    log w' = log w ++ EvExists path ::
               (if path_exists w path then [] else [EvMkdir path]) ++
               [EvGet url; EvOpenWB (os_path_join path name);
                EvWrite (os_path_join path name) body].
Proof.
  intros Hn H. pose proof (download_data_grows _ _ _ _ _ H) as Hgr.
  apply download_data_Ok in H
    as (w0 & body & rest & l & He & Hp & Hq & Hr & Hnd & Hf & Hc & Hl & _).
  pose proof (ensured_exists _ _ _ He) as Hex.
  assert (touches l w0 w') as [Hg Hfr].
  { apply (insert_touches l (File body)); [exact Hf | | done].
    by rewrite (ensured_cwd _ _ _ He). }
  assert (path ≠ "") as Hne by (intros ->; discriminate Hex).
  rewrite (resolve_join _ _ _ Hne (plain_name_relative _ Hn)) in Hr.
  destruct (plain_name_split _ Hn) as [Hs Hsp]. rewrite Hs in Hr.
  destruct (resolve w0 path) as [d|e] eqn:Ed; [| discriminate].
  rewrite (walk_plain _ _ _ Hsp) in Hr.
  destruct (fs w0 !! d) as [[|b]|] eqn:Edir; try discriminate.
  injection Hr as <-.
  exists body, rest, d.
  split; [exact Hp |]. split; [exact Hq |].
  split; [exact (resolve_grows _ _ _ _ Hg Ed) |].
  split; [exact (grows_dir _ _ Hg _ Edir) |].
  split; [by rewrite Hf, lookup_insert_eq |].
  split; [exact Hgr |].
  split.
  - intros Hpe x Hx. rewrite (Hfr x Hx).
    pose proof (ensured_fs _ _ _ He) as Hfs. rewrite Hpe in Hfs.
    by rewrite Hfs.
  - rewrite Hl, (ensured_log _ _ _ He). by rewrite <- app_assoc.
Qed.

Lemma plain_occupancy : plain_name OCCUPANCY.2 = true.
Proof. reflexivity. Qed.
Lemma plain_credit : plain_name CREDIT.2 = true.
Proof. reflexivity. Qed.
Lemma plain_concrete : plain_name CONCRETE.2 = true.
Proof. reflexivity. Qed.

(** The loop of [download_all], when it completes: three downloads into
    one directory, where the three files then are. *)
Lemma downloads_Ok (path : string) (w w3 : world) :
  for_each [OCCUPANCY; CREDIT; CONCRETE]
    (λ d, download_data d.1 d.2 path) w = (Ok tt, w3) →
  ∃ b1 b2 b3 rest d,
    pending w = Ok b1 :: Ok b2 :: Ok b3 :: rest ∧ pending w3 = rest ∧
    grows w w3 ∧
    resolve w3 path = Ok d ∧ fs w3 !! d = Some Dir ∧
    fs w3 !! (OCCUPANCY.2 :: d) = Some (File b1) ∧
    fs w3 !! (CREDIT.2 :: d) = Some (File b2) ∧
    fs w3 !! (CONCRETE.2 :: d) = Some (File b3) ∧
    log w3 = log w ++ EvExists path ::
               (if path_exists w path then [] else [EvMkdir path]) ++
               download_events OCCUPANCY path b1 ++
               EvExists path :: download_events CREDIT path b2 ++
               EvExists path :: download_events CONCRETE path b3.
Proof.
  intros H. simpl in H.
  apply bind_Ok in H as ([] & w1 & H1 & H).
  apply bind_Ok in H as ([] & w2 & H2 & H).
  apply bind_Ok in H as ([] & w3' & H3 & [= <-]).
  pose proof (download_data_exists _ _ _ _ _ H1) as Hex1.
  pose proof (download_data_exists _ _ _ _ _ H2) as Hex2.
  apply (download_data_plain _ _ _ _ _ plain_occupancy) in H1
    as (b1 & r1 & d & Hp1 & Hq1 & Hr1 & Hd1 & Hf1 & Hg1 & _ & Hl1).
  apply (download_data_plain _ _ _ _ _ plain_credit) in H2
    as (b2 & r2 & d2 & Hp2 & Hq2 & Hr2 & Hd2 & Hf2 & Hg2 & Hfr2 & Hl2).
  apply (download_data_plain _ _ _ _ _ plain_concrete) in H3
    as (b3 & r3 & d3 & Hp3 & Hq3 & Hr3 & Hd3 & Hf3 & Hg3 & Hfr3 & Hl3).
  assert (d2 = d) as ->.
  { pose proof (resolve_grows _ _ _ _ Hg2 Hr1). congruence. }
  assert (d3 = d) as ->.
  { pose proof (resolve_grows _ _ _ _ Hg3 Hr2). congruence. }
  exists b1, b2, b3, r3, d.
  split; [congruence |]. split; [exact Hq3 |].
  split; [exact (grows_trans _ _ _ (grows_trans _ _ _ Hg1 Hg2) Hg3) |].
  split; [exact Hr3 |]. split; [exact Hd3 |].
  split; [by rewrite (Hfr3 Hex2), (Hfr2 Hex1) |].
  split; [by rewrite (Hfr3 Hex2) |].
  split; [exact Hf3 |].
  rewrite Hl3, Hl2, Hl1, Hex1, Hex2. unfold download_events. simpl.
  rewrite <- !app_assoc. simpl. by rewrite <- !app_assoc.
Qed.

(** After the loop the archive is where the first download put it. *)
Lemma archive_after_downloads (path : string) (w w3 : world) :
  for_each [OCCUPANCY; CREDIT; CONCRETE]
    (λ d, download_data d.1 d.2 path) w = (Ok tt, w3) →
  ∃ b1 rest d,
    pending w = Ok b1 :: rest ∧
    resolve w3 path = Ok d ∧ fs w3 !! d = Some Dir ∧
    resolve w3 (os_path_join path "occupancy.zip") = Ok ("occupancy.zip" :: d) ∧
    fs w3 !! ("occupancy.zip" :: d) = Some (File b1).
Proof.
  intros H. apply downloads_Ok in H
    as (b1 & b2 & b3 & rest & d & Hp & _ & _ & Hr & Hd & Hf1 & _ & _ & _).
  exists b1, (Ok b2 :: Ok b3 :: rest), d.
  split; [exact Hp |]. split; [exact Hr |]. split; [exact Hd |].
  split; [by apply resolve_join_plain | exact Hf1].
Qed.

(** ** [download_all], step by step *)

Section Fetcher.

Variable zip_decode : list byte → option (list (string * option (list byte))).

Lemma zipfile_ZipFile_run (path : string) (w : world) :
  zipfile_ZipFile zip_decode path w =
  (match resolve w path with
   | Ok l =>
       match fs w !! l with
       | Some (File b) =>
           match zip_decode b with
           | Some ms => Ok {| zpath := path; members := ms |}
           | None => Raise BadZipFile
           end
       | Some Dir => Raise IsADirectoryError
       | None => Raise FileNotFoundError
       end
   | Raise e => Raise e
   end, emit (EvOpenRB path) w).
Proof.
  unfold zipfile_ZipFile, read_file, resolving, read_at.
  do 3 (rewrite bind_run; simpl).
  change (resolve (emit (EvOpenRB path) w) path) with (resolve w path).
  destruct (resolve w path) as [l|e]; [| reflexivity].
  destruct (fs w !! l) as [[|b]|]; try reflexivity.
  destruct (zip_decode b); reflexivity.
Qed.

(** The loop of [download_all] is three calls of [download_data] with
    the one [path], and the archive is opened after them. *)
Lemma download_all_unroll (path : string) :
  download_all zip_decode path =
  ((download_data OCCUPANCY.1 OCCUPANCY.2 path ;;
    download_data CREDIT.1 CREDIT.2 path ;;
    download_data CONCRETE.1 CONCRETE.2 path ;;
    ret tt) ;;
   z ← zipfile_ZipFile zip_decode (os_path_join path "occupancy.zip") ;
   extractall z (os_path_join path "occupancy")).
Proof. reflexivity. Qed.

End Fetcher.

(** ** Failures *)

(** [download_data] raises exactly when one of its calls raises, with the
    exception of that call and in the world that call left. *)
Lemma download_data_Raise (url name path : string) (w w' : world) (e : exn) :
  download_data url name path w = (Raise e, w') ↔
  let ensure := if negb (path_exists w path) then os_mkdir path else ret tt in
  ensure (emit (EvExists path) w) = (Raise e, w') ∨
  ∃ w1, ensure (emit (EvExists path) w) = (Ok tt, w1) ∧
    (requests_get url w1 = (Raise e, w') ∨
     ∃ resp w2, requests_get url w1 = (Ok resp, w2) ∧
       (open_wb (os_path_join path name) w2 = (Raise e, w') ∨
        ∃ f w3, open_wb (os_path_join path name) w2 = (Ok f, w3) ∧
                file_write f (content resp) w3 = (Raise e, w'))).
Proof.
  unfold download_data. rewrite bind_Raise, os_path_exists_run. split.
  - intros [[=] | (ex & w0 & [= <- <-] & H)].
    apply bind_Raise in H as [H | ([] & w1 & H1 & H)]; [by left | right].
    exists w1. split; [exact H1 |].
    apply bind_Raise in H as [H | (resp & w2 & H2 & H)]; [by left | right].
    exists resp, w2. split; [exact H2 |].
    apply bind_Raise in H as [H | (f & w3 & H3 & H)]; [by left | right].
    by exists f, w3.
  - intros H. right. eexists _, _. split; [reflexivity |].
    apply bind_Raise. destruct H as [H | (w1 & H1 & H)]; [by left | right].
    exists tt, w1. split; [exact H1 |].
    apply bind_Raise. destruct H as [H | (resp & w2 & H2 & H)]; [by left | right].
    exists resp, w2. split; [exact H2 |].
    apply bind_Raise. destruct H as [H | (f & w3 & H3 & H)]; [by left | right].
    by exists f, w3.
Qed.

Section Failures.

Variable zip_decode : list byte → option (list (string * option (list byte))).

(** [download_all] raises exactly when one of its five steps raises. *)
Lemma download_all_Raise (path : string) (w w' : world) (e : exn) :
  download_all zip_decode path w = (Raise e, w') ↔
  download_data OCCUPANCY.1 OCCUPANCY.2 path w = (Raise e, w') ∨
  ∃ w1, download_data OCCUPANCY.1 OCCUPANCY.2 path w = (Ok tt, w1) ∧
    (download_data CREDIT.1 CREDIT.2 path w1 = (Raise e, w') ∨
     ∃ w2, download_data CREDIT.1 CREDIT.2 path w1 = (Ok tt, w2) ∧
       (download_data CONCRETE.1 CONCRETE.2 path w2 = (Raise e, w') ∨
        ∃ w3, download_data CONCRETE.1 CONCRETE.2 path w2 = (Ok tt, w3) ∧
          (zipfile_ZipFile zip_decode (os_path_join path "occupancy.zip") w3
             = (Raise e, w') ∨
           ∃ z w4,
             zipfile_ZipFile zip_decode (os_path_join path "occupancy.zip") w3
               = (Ok z, w4) ∧
             extractall z (os_path_join path "occupancy") w4 = (Raise e, w')))).
Proof.
  rewrite download_all_unroll. split.
  - intros H. apply bind_Raise in H as [H | ([] & w3 & H3 & H)].
    + apply bind_Raise in H as [H | ([] & w1 & H1 & H)]; [by left | right].
      exists w1. split; [exact H1 |].
      apply bind_Raise in H as [H | ([] & w2 & H2 & H)]; [by left | right].
      exists w2. split; [exact H2 |].
      apply bind_Raise in H as [H | ([] & w3 & H3 & [=])]. by left.
    + apply bind_Ok in H3 as ([] & w1 & H1 & H3).
      apply bind_Ok in H3 as ([] & w2 & H2 & H3).
      apply bind_Ok in H3 as ([] & w3' & H3 & [= <-]).
      right. exists w1. split; [exact H1 |].
      right. exists w2. split; [exact H2 |].
      right. exists w3'. split; [exact H3 |].
      apply bind_Raise in H as [H | (z & w4 & Hz & H)]; [by left | right].
      by exists z, w4.
  - intros H. apply bind_Raise.
    destruct H as [H | (w1 & H1 & H)].
    { left. apply bind_Raise. by left. }
    destruct H as [H | (w2 & H2 & H)].
    { left. apply bind_Raise. right. exists tt, w1. split; [exact H1 |].
      apply bind_Raise. by left. }
    destruct H as [H | (w3 & H3 & H)].
    { left. apply bind_Raise. right. exists tt, w1. split; [exact H1 |].
      apply bind_Raise. right. exists tt, w2. split; [exact H2 |].
      apply bind_Raise. by left. }
    right. exists tt, w3. split.
    { apply bind_Ok. exists tt, w1. split; [exact H1 |].
      apply bind_Ok. exists tt, w2. split; [exact H2 |].
      apply bind_Ok. exists tt, w3. split; [exact H3 | reflexivity]. }
    apply bind_Raise. destruct H as [H | (z & w4 & Hz & H)]; [by left | right].
    by exists z, w4.
Qed.

(** C4.  The fetcher has no handler.  [download_data] and [download_all]
    raise exactly when one of their calls raises, and then with that
    call's exception and in the world that call left: nothing is run
    after it.  In particular a refused request is asked once and not
    again, what a failed write left in the file stays there, and an
    archive that does not decode stops [download_all] after the three
    downloads. *)
Theorem fetcher_errors_propagate :
  (∀ url name path w w' e,
     download_data url name path w = (Raise e, w') ↔
     let ensure := if negb (path_exists w path) then os_mkdir path else ret tt in
     ensure (emit (EvExists path) w) = (Raise e, w') ∨
     ∃ w1, ensure (emit (EvExists path) w) = (Ok tt, w1) ∧
       (requests_get url w1 = (Raise e, w') ∨
        ∃ resp w2, requests_get url w1 = (Ok resp, w2) ∧
          (open_wb (os_path_join path name) w2 = (Raise e, w') ∨
           ∃ f w3, open_wb (os_path_join path name) w2 = (Ok f, w3) ∧
                   file_write f (content resp) w3 = (Raise e, w')))) ∧
  (∀ path w w' e,
     download_all zip_decode path w = (Raise e, w') ↔
     download_data OCCUPANCY.1 OCCUPANCY.2 path w = (Raise e, w') ∨
     ∃ w1, download_data OCCUPANCY.1 OCCUPANCY.2 path w = (Ok tt, w1) ∧
       (download_data CREDIT.1 CREDIT.2 path w1 = (Raise e, w') ∨
        ∃ w2, download_data CREDIT.1 CREDIT.2 path w1 = (Ok tt, w2) ∧
          (download_data CONCRETE.1 CONCRETE.2 path w2 = (Raise e, w') ∨
           ∃ w3, download_data CONCRETE.1 CONCRETE.2 path w2 = (Ok tt, w3) ∧
             (zipfile_ZipFile zip_decode (os_path_join path "occupancy.zip") w3
                = (Raise e, w') ∨
              ∃ z w4,
                zipfile_ZipFile zip_decode (os_path_join path "occupancy.zip") w3
                  = (Ok z, w4) ∧
                extractall z (os_path_join path "occupancy") w4
                  = (Raise e, w'))))) ∧
  (∀ url name path w e rest,
     path_exists w path = true → pending w = Raise e :: rest →
     download_data url name path w =
     (Raise e, set_pending rest (emit (EvGet url) (emit (EvExists path) w)))) ∧
  (∀ url name path w body old rest l,
     path_exists w path = true → pending w = Ok body :: rest →
     resolve w (os_path_join path name) = Ok l →
     fs w !! l = Some (File old) →
     (disk_free w + length old < length body)%nat →
     ∃ w', download_data url name path w = (Raise NoSpaceError, w') ∧
           fs w' !! l = Some (File (take (disk_free w + length old) body))) ∧
  (∀ path w w3 b1,
     for_each [OCCUPANCY; CREDIT; CONCRETE]
       (λ d, download_data d.1 d.2 path) w = (Ok tt, w3) →
     hd_error (pending w) = Some (Ok b1) → zip_decode b1 = None →
     download_all zip_decode path w =
     (Raise BadZipFile, emit (EvOpenRB (os_path_join path "occupancy.zip")) w3)).
Proof.
  split; [intros; apply download_data_Raise |].
  split; [intros; apply download_all_Raise |].
  split; [| split].
  - intros url name path w e rest Hex Hp.
    apply download_data_Raise. simpl. rewrite Hex. simpl. right.
    eexists. split; [reflexivity |]. left.
    rewrite requests_get_run. simpl. by rewrite Hp.
  - intros url name path w body old rest l Hex Hp Hr Hl Hlt.
    eexists. split.
    + apply download_data_Raise. simpl. rewrite Hex. simpl. right.
      eexists. split; [reflexivity |]. right.
      eexists _, _. split.
      { rewrite requests_get_run. simpl. rewrite Hp. reflexivity. }
      right. eexists _, _. split.
      { unfold open_wb. apply bind_Ok. eexists _, _. split; [reflexivity |].
        apply bind_Ok. exists l. eexists. split.
        { unfold resolving_wb. f_equal. rewrite !resolve_wb_emit.
          apply (resolve_wb_file w); [exact Hr | by rewrite Hl]. }
        apply bind_Ok. eexists _, _. split; [| reflexivity].
        unfold truncate_at. simpl. rewrite Hl. reflexivity. }
      unfold file_write. apply bind_Raise. right.
      eexists _, _. split; [reflexivity |].
      unfold append_at. simpl. rewrite lookup_insert_eq.
      destruct (decide _) as [Hle | _]; [lia | reflexivity].
    + simpl. by rewrite lookup_insert_eq.
  - intros path w w3 b1 Hloop Hhd Hz.
    destruct (archive_after_downloads _ _ _ Hloop)
      as (b1' & rest & d & Hp & _ & _ & Hrz & Hf).
    rewrite Hp in Hhd. injection Hhd as ->.
    unfold download_all.
    rewrite bind_run, Hloop, bind_run, zipfile_ZipFile_run, Hrz, Hf, Hz.
    reflexivity.
Qed.

End Failures.

Example refused_request_is_not_retried :
  let r := download_data "u" "occupancy.zip" "data" Sample.offline in
  r.1 = Raise HTTPTimeout ∧ gets (log r.2) = ["u"] ∧
  pending r.2 = [Ok (Sample.bytes 3)] ∧
  file_content r.2 "data/occupancy.zip" = Some (Sample.bytes 9).
Proof. vm_compute. repeat split; discriminate. Qed.

Example partial_write_stays :
  let r := download_data "u" "credit.xls" "data" Sample.full in
  r.1 = Raise NoSpaceError ∧
  file_content r.2 "data/credit.xls" = Some (Sample.bytes 2).
Proof. vm_compute. repeat split; discriminate. Qed.

Example bad_archive_stops :
  let r := download_all (λ _, None) "data" Sample.fresh in
  r.1 = Raise BadZipFile ∧
  last (log r.2) = Some (EvOpenRB "data/occupancy.zip").
Proof. vm_compute. repeat split; discriminate. Qed.

Example nested_path_raises :
  (download_data "u" "occupancy.zip" "a/b" Sample.fresh).1
  = Raise FileNotFoundError.
Proof. vm_compute. repeat split; discriminate. Qed.

Lemma fetcher_errors_propagate_witness :
  download_data "u" "occupancy.zip" "data" Sample.offline =
  (Raise HTTPTimeout,
   set_pending [Ok (Sample.bytes 3)]
     (emit (EvGet "u") (emit (EvExists "data") Sample.offline))).
Proof.
  apply (proj1 (proj2 (proj2 (fetcher_errors_propagate Sample.unzip))));
    vm_compute; reflexivity.
Defined.

(** ** The shape of the control flow *)

Lemma calls_since_app (w w' : world) (es : list event) :
  log w' = log w ++ es → calls_since w w' = call_of <$> es.
Proof. intros H. unfold calls_since. by rewrite H, drop_app_length. Qed.

(** C5, as stated, fails: [download_data] has a conditional.  With the
    same arguments it calls [os.mkdir] in one world and not in another. *)
Lemma download_data_branches :
  let r1 := download_data OCCUPANCY.1 OCCUPANCY.2 "data" Sample.fresh in
  let r2 := download_data OCCUPANCY.1 OCCUPANCY.2 "data" Sample.prepared in
  r1.1 = Ok tt ∧ r2.1 = Ok tt ∧
  calls_since Sample.fresh r1.2 = [CExists; CMkdir; CGet; COpenWB; CWrite] ∧
  calls_since Sample.prepared r2.2 = [CExists; CGet; COpenWB; CWrite] ∧
  calls_since Sample.fresh r1.2 ≠ calls_since Sample.prepared r2.2.
Proof. vm_compute. repeat split; discriminate. Qed.

Lemma cell_styles_run (available : list string) (w : world) :
  ∃ w', cell_styles available w = (Ok tt, w') ∧
        log w' = log w ++ ((λ style, EvPrint ("- " +:+ style)) <$> available).
Proof.
  revert w. induction available as [|style available IH]; intros w.
  - exists w. split; [reflexivity | by rewrite app_nil_r].
  - destruct (IH (emit (EvPrint ("- " +:+ style)) w)) as (w' & Hrun & Hl).
    exists w'. split.
    + unfold cell_styles in *. simpl. apply bind_Ok.
      eexists _, _. split; [reflexivity | exact Hrun].
    + rewrite Hl. simpl. by rewrite <- app_assoc.
Qed.

Section ControlFlow.

Variable zip_decode : list byte → option (list (string * option (list byte))).

(** C5, amended.  The fetcher is straight-line code around one loop
    over the three dataset tuples and one conditional: a completed
    [download_data] makes the same calls in the same order every time,
    but for [os.mkdir], which it makes exactly when the path did not
    exist; a completed [download_all] makes the calls of three
    downloads and then opens and extracts the archive, and only the
    first download can make the directory.  The plotting notebook has a
    loop of its own, one [print] per available style. *)
Theorem fetcher_control_flow :
  (∀ url name path w w',
     download_data url name path w = (Ok tt, w') →
     calls_since w w' =
     CExists :: (if path_exists w path then [] else [CMkdir]) ++
     [CGet; COpenWB; CWrite]) ∧
  (∀ path w w',
     download_all zip_decode path w = (Ok tt, w') →
     calls_since w w' =
     CExists :: (if path_exists w path then [] else [CMkdir]) ++
     [CGet; COpenWB; CWrite;
      CExists; CGet; COpenWB; CWrite;
      CExists; CGet; COpenWB; CWrite;
      COpenRB; CExtractAll]) ∧
  (∀ available w,
     ∃ w', cell_styles available w = (Ok tt, w') ∧
           calls_since w w' = replicate (length available) CPrint).
Proof.
  split; [| split].
  - intros url name path w w' H.
    apply download_data_Ok in H
      as (w0 & body & rest & l & He & _ & _ & _ & _ & _ & _ & Hl & _).
    rewrite (ensured_log _ _ _ He), <- app_assoc in Hl.
    rewrite (calls_since_app _ _ _ Hl).
    by destruct (path_exists w path).
  - intros path w w' H. unfold download_all in H.
    apply bind_Ok in H as ([] & w3 & Hloop & H).
    apply bind_Ok in H as (z & w4 & Hz & Hx).
    apply downloads_Ok in Hloop
      as (b1 & b2 & b3 & rest & d & _ & _ & _ & _ & _ & _ & _ & _ & Hl).
    rewrite zipfile_ZipFile_run in Hz. injection Hz as _ <-.
    apply extractall_log in Hx as [Hlx _]. simpl in Hlx.
    rewrite Hl, <- !app_assoc in Hlx.
    rewrite (calls_since_app _ _ _ Hlx).
    by destruct (path_exists w path).
  - intros available w.
    destruct (cell_styles_run available w) as (w' & Hrun & Hl).
    exists w'. split; [exact Hrun |].
    rewrite (calls_since_app _ _ _ Hl), <- list_fmap_compose.
    clear. induction available as [|s l IH]; [done |].
    rewrite fmap_cons, IH. reflexivity.
Qed.

End ControlFlow.

Lemma fetcher_control_flow_witness :
  calls_since Sample.prepared
    (download_data "u" "occupancy.zip" "data" Sample.prepared).2
  = [CExists; CGet; COpenWB; CWrite].
Proof.
  apply (proj1 (fetcher_control_flow Sample.unzip) "u" "occupancy.zip" "data"
           Sample.prepared). vm_compute; reflexivity.
Defined.

(** ** Tables *)

Lemma read_file_run (path : string) (w : world) :
  read_file path w =
  (match resolve w path with
   | Ok l =>
       match fs w !! l with
       | Some (File b) => Ok b
       | Some Dir => Raise IsADirectoryError
       | None => Raise FileNotFoundError
       end
   | Raise e => Raise e
   end, emit (EvOpenRB path) w).
Proof.
  unfold read_file, resolving, read_at. do 2 (rewrite bind_run; simpl).
  change (resolve (emit (EvOpenRB path) w) path) with (resolve w path).
  destruct (resolve w path) as [l|e]; [| reflexivity].
  destruct (fs w !! l) as [[|b]|]; reflexivity.
Qed.

Lemma read_file_Ok (path : string) (w w' : world) (bs : list byte) :
  read_file path w = (Ok bs, w') →
  file_content w path = Some bs ∧ w' = emit (EvOpenRB path) w.
Proof.
  rewrite read_file_run. unfold file_content.
  destruct (resolve w path) as [l|e]; [| discriminate].
  destruct (fs w !! l) as [[|b]|]; try discriminate.
  by intros [= -> <-].
Qed.

Section Tables.

Variable cell : Type.
Variable csv_parse : list byte → outcome (DataFrame cell).

Lemma row_values (df : DataFrame cell) (i : nat) :
  row df i = (λ v : list cell, v !! i) <$> (cols df).*2.
Proof. unfold row. by rewrite <- list_fmap_compose. Qed.

(** Assigning the labels keeps the row labels and every column of
    values; the labels become the new ones. *)
Lemma set_columns_Ok (df r : DataFrame cell) (names : list string) :
  set_columns df names = Ok r →
  length names = length (cols df) ∧
  columns r = names ∧ index r = index df ∧ (cols r).*2 = (cols df).*2 ∧
  ∀ i, row r i = row df i.
Proof.
  unfold set_columns. destruct (decide _) as [Hlen | _]; [| discriminate].
  intros [= <-]. unfold columns. simpl.
  assert (length names = length (cols df).*2) as Hl by (by rewrite length_fmap).
  split; [exact Hlen |].
  split; [apply fst_zip; lia |]. split; [reflexivity |].
  assert ((zip names (cols df).*2).*2 = (cols df).*2) as Hv
    by (apply snd_zip; lia).
  split; [exact Hv |]. intros i. rewrite !row_values. simpl. by rewrite Hv.
Qed.

Lemma set_columns_refused (df : DataFrame cell) (names : list string) :
  length names ≠ length (cols df) → set_columns df names = Raise ValueError.
Proof. unfold set_columns. by destruct (decide _). Qed.

(** C6.  The load cell of the occupancy data, when it completes: the
    table that [read_csv] parsed from the file is bound to [occupancy]
    and its column labels are then assigned, with nothing in between;
    the labels are the seven given names in their order whatever the
    file called them, and the row labels and every value of every row
    are those of the parsed table.  The cell reads one file and changes
    no other variable. *)
Theorem occupancy_columns_renamed
    (ns ns' : gmap string (value cell)) (w w' : world) :
  cell_load_occupancy csv_parse (ns, w) = (Ok tt, (ns', w')) →
  ∃ bs parsed renamed,
    file_content w "data/occupancy/datatraining.txt" = Some bs ∧
    csv_parse bs = Ok parsed ∧
    set_columns parsed occupancy_columns = Ok renamed ∧
    ns' = <["occupancy" := VFrame renamed]> ns ∧
    w' = emit (EvOpenRB "data/occupancy/datatraining.txt") w ∧
    columns renamed =
      ["date"; "temp"; "humid"; "light"; "co2"; "hratio"; "occupied"] ∧
    index renamed = index parsed ∧
    (cols renamed).*2 = (cols parsed).*2 ∧
    ∀ i, row renamed i = row parsed i.
Proof.
  intros H. unfold cell_load_occupancy in H.
  apply bind_Ok in H as ([] & s1 & [= <-] & H).
  apply bind_Ok in H as (v & s2 & Hv & H).
  unfold var in Hv. simpl in Hv. rewrite lookup_insert_eq in Hv.
  injection Hv as <- <-.
  apply bind_Ok in H as (p & s3 & [= <- <-] & H).
  apply bind_Ok in H as (df & s4 & Hio & H).
  unfold io in Hio. simpl in Hio.
  destruct (read_csv _ _ w) as [r1 w1] eqn:Hcsv.
  injection Hio as -> <-.
  unfold read_csv in Hcsv.
  apply bind_Ok in Hcsv as (bs & w2 & Hrd & Hparse).
  apply read_file_Ok in Hrd as [Hfc ->].
  unfold lift in Hparse. injection Hparse as Hparse <-.
  apply bind_Ok in H as ([] & s5 & [= <-] & H).
  apply bind_Ok in H as (v & s6 & Hv & H).
  unfold var in Hv. simpl in Hv. rewrite lookup_insert_eq in Hv.
  injection Hv as <- <-.
  apply bind_Ok in H as (occ & s7 & [= <- <-] & H).
  apply bind_Ok in H as (renamed & s8 & Hren & H).
  unfold lift in Hren. injection Hren as Hren <-.
  unfold assign, modify in H. simpl in H. injection H as <- <-.
  exists bs, df, renamed.
  split; [exact Hfc |]. split; [exact Hparse |]. split; [exact Hren |].
  split; [by rewrite !insert_insert_eq |]. split; [reflexivity |].
  apply set_columns_Ok in Hren as (_ & Hc & Hi & Hv & Hrow). done.
Qed.

(** C8.  On the renamed occupancy table the separating cell completes:
    [features] is the table of the five columns [temp], [humid],
    [light], [co2], [hratio] with the values they have in [occupancy],
    [labels] is the column [occupied], both keep the row labels, so
    every row is there in its order with its values; [occupancy] is
    still bound to the same table and the world is untouched. *)
Theorem features_and_labels
    (ns : gmap string (value cell)) (w : world) (df : DataFrame cell) :
  ns !! "occupancy" = Some (VFrame df) →
  columns df = occupancy_columns →
  ∃ c0 c1 c2 c3 c4 c5 c6 features labels ns',
    cols df = [("date", c0); ("temp", c1); ("humid", c2); ("light", c3);
               ("co2", c4); ("hratio", c5); ("occupied", c6)] ∧
    cell_separate (ns, w) = (Ok tt, (ns', w)) ∧
    ns' !! "features" = Some (VFrame features) ∧
    ns' !! "labels" = Some (VSeries labels) ∧
    ns' !! "occupancy" = Some (VFrame df) ∧
    features = {| index := index df;
                  cols := [("temp", c1); ("humid", c2); ("light", c3);
                           ("co2", c4); ("hratio", c5)] |} ∧
    labels = {| sname := "occupied"; sindex := index df; svalues := c6 |} ∧
    ∀ i, row features i = take 5 (drop 1 (row df i)) ∧
         [svalues labels !! i] = drop 6 (row df i).
Proof.
  intros Hocc Hcols. unfold columns, occupancy_columns in Hcols.
  destruct df as [idx cs]. simpl in *.
  destruct cs as [|[n0 c0] [|[n1 c1] [|[n2 c2] [|[n3 c3] [|[n4 c4]
    [|[n5 c5] [|[n6 c6] [|? ?]]]]]]]]; try discriminate.
  simpl in Hcols. injection Hcols as -> -> -> -> -> -> ->.
  exists c0, c1, c2, c3, c4, c5, c6. eexists _, _, _.
  split; [reflexivity |]. split.
  { unfold cell_separate.
    apply bind_Ok. eexists _, _. split.
    { unfold var. simpl. rewrite Hocc. reflexivity. }
    apply bind_Ok. eexists _, _. split; [reflexivity |].
    apply bind_Ok. eexists _, _. split; [reflexivity |].
    apply bind_Ok. eexists _, _. split; [reflexivity |].
    apply bind_Ok. eexists _, _. split.
    { unfold var. simpl. rewrite lookup_insert_ne by done.
      rewrite Hocc. reflexivity. }
    apply bind_Ok. eexists _, _. split; [reflexivity |].
    apply bind_Ok. eexists _, _. split; [reflexivity |].
    reflexivity. }
  cbn [fst snd].
  split; [by rewrite lookup_insert_ne, lookup_insert_eq |].
  split; [by rewrite lookup_insert_eq |].
  split; [by rewrite !lookup_insert_ne |].
  split; [reflexivity |]. split; [reflexivity |].
  intros i. split; reflexivity.
Qed.

End Tables.

Lemma occupancy_columns_renamed_witness :
  ∃ renamed,
    Sample.loaded !! "occupancy" = Some (VFrame renamed) ∧
    columns renamed = occupancy_columns.
Proof.
  destruct (occupancy_columns_renamed nat Sample.parse ∅ Sample.loaded
              Sample.extracted
              (cell_load_occupancy Sample.parse (∅, Sample.extracted)).2.2)
    as (bs & parsed & renamed & _ & _ & _ & Hns & _ & Hc & _);
    [vm_compute; reflexivity |].
  exists renamed. split; [| exact Hc].
  rewrite Hns. apply lookup_insert_eq.
Defined.

Lemma features_and_labels_witness :
  ∃ features,
    (cell_separate (Sample.loaded, Sample.extracted)).2.1 !! "features"
      = Some (VFrame features) ∧
    columns features = feature_columns.
Proof.
  destruct (features_and_labels nat Sample.loaded Sample.extracted
              {| index := [1; 2];
                 cols := [("date", [10; 11]); ("temp", [20; 21]);
                          ("humid", [30; 31]); ("light", [40; 41]);
                          ("co2", [50; 51]); ("hratio", [60; 61]);
                          ("occupied", [0; 1])] |})
    as (c0 & c1 & c2 & c3 & c4 & c5 & c6 & features & labels & ns'
        & _ & Hrun & Hf & _ & _ & -> & _);
    [vm_compute; reflexivity | reflexivity |].
  eexists. rewrite Hrun. split; [exact Hf | reflexivity].
Defined.

(** ** Where the notebooks write *)

Lemma within_refl (D : loc) (w : world) : within D w w.
Proof. split; [apply grows_refl | done]. Qed.

Lemma within_trans (D : loc) (w1 w2 w3 : world) :
  within D w1 w2 → within D w2 w3 → within D w1 w3.
Proof.
  intros [Hg1 Hf1] [Hg2 Hf2]. split; [by apply (grows_trans _ w2) |].
  intros x Hx. by rewrite Hf2, Hf1.
Qed.

Lemma touches_within (D l : loc) (w w' : world) :
  D `suffix_of` l → touches l w w' → within D w w'.
Proof.
  intros Hs [Hg Hf]. split; [exact Hg |].
  intros x Hx. apply Hf. by intros ->.
Qed.

Lemma same_fs_within (D : loc) (w w' : world) :
  fs w' = fs w → cwd w' = cwd w → within D w w'.
Proof.
  intros Hf Hc. split; [by apply grows_same_fs | by rewrite Hf].
Qed.

Lemma norm_loc_grows (w w' : world) (p : string) :
  grows w w' → norm_loc w' p = norm_loc w p.
Proof. intros Hg. unfold norm_loc, start. by rewrite (grows_cwd _ _ Hg). Qed.

Lemma os_mkdir_touches (path : string) (w w' : world) (r : outcome unit) :
  os_mkdir path w = (r, w') → touches (norm_new w path) w w'.
Proof.
  unfold os_mkdir. rewrite bind_run. simpl. rewrite bind_run.
  unfold resolving_new.
  change (resolve_new (emit (EvMkdir path) w) path) with (resolve_new w path).
  destruct (resolve_new w path) as [d|e] eqn:Hr.
  - intros H. apply mkdir_at_touches in H.
    assert (d = norm_new w path) as <-.
    { unfold resolve_new in Hr. destruct (is_empty path); [discriminate |].
      symmetry. by apply (walk_lexical (fs w)). }
    destruct H as [[Hc Hd He] Hf]. by repeat split.
  - intros [= <- <-]. by repeat split.
Qed.

Lemma open_wb_touches (p : string) (w w' : world) (r : outcome handle) :
  open_wb p w = (r, w') →
  touches (norm_loc w p) w w' ∧ ∀ f, r = Ok f → hloc f = norm_loc w p.
Proof.
  unfold open_wb. rewrite bind_run. simpl. rewrite bind_run.
  unfold resolving_wb. rewrite resolve_wb_emit.
  destruct (resolve_wb w p) as [l|e] eqn:Hr.
  - apply resolve_wb_Ok in Hr as [Hr _].
    destruct (resolve_norm_loc _ _ _ Hr) as [<- _].
    rewrite bind_run.
    destruct (truncate_at _ _) as [[[]|e] w1] eqn:Ht;
      apply truncate_at_touches in Ht; destruct Ht as [[Hc Hd He] Hf].
    + intros [= <- <-]. split; [by repeat split |]. by intros f [= <-].
    + intros [= <- <-]. split; [by repeat split | done].
  - intros [= <- <-]. split; [by repeat split | done].
Qed.

Lemma file_write_touches (f : handle) (data : list byte) (w w' : world)
    (r : outcome unit) :
  file_write f data w = (r, w') → touches (hloc f) w w'.
Proof.
  unfold file_write. rewrite bind_run. simpl. intros H.
  apply append_at_touches in H. destruct H as [[Hc Hd He] Hf].
  by repeat split.
Qed.

Lemma requests_get_same_fs (url : string) (w w' : world) (r : outcome response) :
  requests_get url w = (r, w') → fs w' = fs w ∧ cwd w' = cwd w.
Proof.
  rewrite requests_get_run.
  destruct (pending w) as [|[body|e] rest]; by intros [= <- <-].
Qed.

(** [savefig], and the last two lines of [download_data]: one file is
    written, the one the path names. *)
Lemma write_touches (p : string) (data : list byte) (w w' : world)
    (r : outcome unit) :
  (f ← open_wb p ; file_write f data) w = (r, w') →
  touches (norm_loc w p) w w'.
Proof.
  rewrite bind_run. destruct (open_wb p w) as [[f|e] w1] eqn:Ho;
    apply open_wb_touches in Ho as [Ht Hf].
  - intros H. apply file_write_touches in H.
    rewrite (Hf f eq_refl) in H.
    destruct Ht as [Hg1 Hf1], H as [Hg2 Hf2].
    split; [by apply (grows_trans _ w1) |].
    intros x Hx. by rewrite (Hf2 x Hx), (Hf1 x Hx).
  - by intros [= <- <-].
Qed.

(** Whatever its outcome, [download_data] changes nothing but the
    directory it may make and the file it may write. *)
Lemma download_data_within (D : loc) (url name path : string) (w w' : world)
    (r : outcome unit) :
  D `suffix_of` norm_new w path →
  D `suffix_of` norm_loc w (os_path_join path name) →
  download_data url name path w = (r, w') → within D w w'.
Proof.
  intros HD1 HD2. unfold download_data.
  rewrite bind_run, os_path_exists_run. cbv iota. rewrite bind_run.
  set (w0 := emit (EvExists path) w).
  assert (within D w w0) as H0 by (by apply same_fs_within).
  destruct ((if negb (path_exists w path) then os_mkdir path else ret ()) w0)
    as [[[]|e] w1] eqn:E1.
  - assert (within D w0 w1) as H1.
    { destruct (negb _).
      - apply os_mkdir_touches in E1. by apply (touches_within D) in E1.
      - injection E1 as <-. apply within_refl. }
    rewrite bind_run.
    destruct (requests_get url w1) as [[resp|e] w2] eqn:E2;
      apply requests_get_same_fs in E2 as [Hf2 Hc2];
      pose proof (same_fs_within D _ _ Hf2 Hc2) as H2.
    + intros H. apply write_touches in H.
      assert (norm_loc w2 (os_path_join path name)
              = norm_loc w (os_path_join path name)) as Hn.
      { apply norm_loc_grows.
        apply (grows_trans _ w0); [apply H0 |].
        apply (grows_trans _ w1); [apply H1 | apply H2]. }
      rewrite Hn in H. apply (touches_within D) in H; [| exact HD2].
      eauto using within_trans.
    + intros [= <- <-]. eauto using within_trans.
  - intros [= <- <-].
    assert (within D w0 w1) as H1; [| eauto using within_trans].
    destruct (negb _).
    + apply os_mkdir_touches in E1. by apply (touches_within D) in E1.
    + discriminate E1.
Qed.

(** [os.makedirs] stops going up at the first directory that exists, so
    below an existing [D] it stays below [D]. *)
Lemma makedirs_at_within (D l : loc) (w w' : world) (r : outcome unit) :
  D `suffix_of` l → exists_at w D = true → exists_at w l = false →
  makedirs_at l w = (r, w') → within D w w'.
Proof.
  revert w w' r. induction l as [|c d IH]; intros w w' r Hs HD Hl.
  - apply suffix_nil_inv in Hs. subst D. congruence.
  - assert (D = c :: d ∨ D `suffix_of` d) as [-> | Hs'].
    { destruct D; [right; apply suffix_nil | by apply suffix_cons_inv]. }
    { congruence. }
    clear Hs. rename Hs' into Hs.
    cbn [makedirs_at]. rewrite bind_run. simpl. rewrite bind_run.
    destruct (exists_at w d) eqn:Hd.
    + simpl. intros H. apply mkdir_at_touches in H.
      apply (touches_within D) in H; [exact H | by apply suffix_cons_r].
    + destruct (makedirs_at d w) as [[[]|e] w1] eqn:E.
      * apply IH in E; [| done | done | done].
        intros H. apply mkdir_at_touches in H.
        apply (touches_within D) in H; [| by apply suffix_cons_r].
        by apply (within_trans D _ w1).
      * apply IH in E; [| done | done | done]. by intros [= <- <-].
Qed.

Lemma exists_at_grows (w w' : world) (l : loc) :
  grows w w' → exists_at w l = true → exists_at w' l = true.
Proof.
  intros Hg. unfold exists_at. destruct (fs w !! l) as [x|] eqn:E; [| done].
  intros _. destruct (grows_ex _ _ Hg l) as [y ->]; [by rewrite E | done].
Qed.

(** A member is extracted below the target, whatever its name. *)
Lemma extract_member_within (D : loc) (c target : string)
    (m : string * option (list byte)) (w w' : world) (r : outcome unit) :
  norm_loc w target = c :: D → exists_at w D = true →
  extract_member target m w = (r, w') → within D w w'.
Proof.
  intros HT HD. unfold extract_member. rewrite bind_run. simpl.
  rewrite HT. set (l := rev (arcname m.1) ++ c :: D).
  assert (D `suffix_of` l) as Hl.
  { apply suffix_app_r, suffix_cons_r. done. }
  assert (D `suffix_of` tail l) as Htl.
  { unfold l. destruct (rev (arcname m.1)) as [|a rest]; simpl; [done |].
    apply suffix_app_r, suffix_cons_r. done. }
  rewrite bind_run.
  assert (∀ r1 w1,
    (if exists_at w (tail l) then ret () else makedirs_at (tail l)) w = (r1, w1)
    → within D w w1) as Hup.
  { intros r1 w1. destruct (exists_at w (tail l)) eqn:Hex.
    - intros [= <- <-]. apply within_refl.
    - by apply makedirs_at_within. }
  destruct ((if exists_at w (tail l) then ret () else makedirs_at (tail l)) w)
    as [[[]|e] w1]; pose proof (Hup _ _ eq_refl) as H1.
  - intros H. apply (within_trans D _ w1); [exact H1 |]. clear Hup H1.
    destruct (endswith_sep m.1).
    + rewrite bind_run in H. simpl in H. destruct (is_dir_at w1 l).
      * injection H as <- <-. apply within_refl.
      * apply mkdir_at_touches in H. by apply (touches_within D) in H.
    + rewrite bind_run in H.
      destruct (truncate_at l w1) as [[[]|e] w2] eqn:E2;
        apply truncate_at_touches in E2; apply (touches_within D) in E2;
        try done.
      * apply (within_trans D _ w2); [exact E2 |].
        destruct m.2 as [data|].
        -- apply append_at_touches in H. by apply (touches_within D) in H.
        -- injection H as <- <-. apply within_refl.
      * by injection H as <- <-.
  - by intros [= <- <-].
Qed.

Lemma extractall_within (D : loc) (c target : string) (z : ZipFile)
    (w w' : world) (r : outcome unit) :
  norm_loc w target = c :: D → exists_at w D = true →
  extractall z target w = (r, w') → within D w w'.
Proof.
  intros HT HD. unfold extractall. rewrite bind_run. simpl.
  set (w0 := emit (EvExtractAll target) w).
  assert (norm_loc w0 target = c :: D) as HT0 by exact HT.
  assert (exists_at w0 D = true) as HD0 by exact HD.
  assert (within D w w0) as H0 by (by apply same_fs_within).
  intros H. apply (within_trans D _ w0); [exact H0 |].
  clearbody w0. clear H0 HT HD w.
  revert w0 HT0 HD0 H.
  induction (members z) as [|m ms IH]; intros w HT HD; simpl.
  - intros [= <- <-]. apply within_refl.
  - rewrite bind_run.
    destruct (extract_member target m w) as [[[]|e] w1] eqn:E1;
      apply (extract_member_within D c) in E1; try done.
    + intros H. apply (within_trans D _ w1); [exact E1 |].
      destruct E1 as [Hg _]. apply IH; [| | exact H].
      * by rewrite (norm_loc_grows _ _ _ Hg).
      * by apply (exists_at_grows w).
    + by intros [= <- <-].
Qed.

Section Confinement.

Variable zip_decode : list byte → option (list (string * option (list byte))).
Variable cell : Type.
Variable csv_parse : list byte → outcome (DataFrame cell).
Variable excel_parse : nat → list byte → outcome (DataFrame cell).

Lemma download_all_within (w w' : world) (r : outcome unit) :
  download_all zip_decode "data" w = (r, w') →
  within ("data" :: cwd w) w w'.
Proof.
  set (D := "data" :: cwd w).
  assert (∀ d w1 w2 r1, cwd w1 = cwd w → plain_name d.2 = true →
            download_data d.1 d.2 "data" w1 = (r1, w2) → within D w1 w2)
    as Hdd.
  { intros d w1 w2 r1 Hc Hn. apply download_data_within.
    - unfold norm_new, start, D. simpl. by rewrite Hc.
    - rewrite norm_loc_join by done. unfold norm_loc, start, D. simpl.
      rewrite Hc. by apply suffix_cons_r. }
  rewrite download_all_unroll, bind_run.
  assert (∀ r3 w3,
    (download_data OCCUPANCY.1 OCCUPANCY.2 "data" ;;
     download_data CREDIT.1 CREDIT.2 "data" ;;
     download_data CONCRETE.1 CONCRETE.2 "data" ;; ret tt) w = (r3, w3) →
    within D w w3) as Hloop.
  { intros r3 w3. rewrite bind_run.
    destruct (download_data _ _ _ w) as [[[]|e] w1] eqn:E1;
      apply (Hdd OCCUPANCY) in E1; try done; [| by intros [= <- <-]].
    rewrite bind_run.
    destruct (download_data _ _ _ w1) as [[[]|e] w2] eqn:E2;
      apply (Hdd CREDIT) in E2; try done;
      try (by rewrite (grows_cwd _ _ (proj1 E1)));
      [| intros [= <- <-]; by apply (within_trans D _ w1)].
    rewrite bind_run.
    destruct (download_data _ _ _ w2) as [[[]|e] w3'] eqn:E3;
      apply (Hdd CONCRETE) in E3; try done;
      try (by rewrite (grows_cwd _ _ (proj1 E2)), (grows_cwd _ _ (proj1 E1)));
      intros [= <- <-]; eauto using within_trans. }
  destruct ((download_data OCCUPANCY.1 OCCUPANCY.2 "data" ;;
             download_data CREDIT.1 CREDIT.2 "data" ;;
             download_data CONCRETE.1 CONCRETE.2 "data" ;; ret tt) w)
    as [[[]|e] w3]; pose proof (Hloop _ _ eq_refl) as H3;
    [| by intros [= <- <-]].
  rewrite bind_run, zipfile_ZipFile_run.
  change (os_path_join "data" "occupancy.zip") with "data/occupancy.zip".
  change (os_path_join "data" "occupancy") with "data/occupancy".
  assert (cwd w3 = cwd w) as Hc by apply (grows_cwd _ _ (proj1 H3)).
  destruct (resolve w3 "data/occupancy.zip") as [l|e] eqn:Hr;
    [| intros [= <- <-]; apply (within_trans D _ w3); [exact H3 |];
       by apply same_fs_within].
  assert (exists_at w3 D = true) as HD.
  { unfold resolve, start in Hr. simpl in Hr. rewrite Hc in Hr.
    unfold exists_at, D.
    destruct (fs w3 !! cwd w) as [[|?]|]; try discriminate.
    by destruct (fs w3 !! ("data" :: cwd w)) as [[|?]|]. }
  destruct (fs w3 !! l) as [[|b]|];
    try (intros [= <- <-]; apply (within_trans D _ w3); [exact H3 |];
         by apply same_fs_within).
  destruct (zip_decode b) as [ms|];
    [| intros [= <- <-]; apply (within_trans D _ w3); [exact H3 |];
       by apply same_fs_within].
  intros H. apply (extractall_within D "occupancy") in H.
  - apply (within_trans D _ w3); [exact H3 |].
    apply (within_trans D _ (emit (EvOpenRB "data/occupancy.zip") w3));
      [by apply same_fs_within | exact H].
  - unfold norm_loc, start, D. simpl. by rewrite Hc.
  - exact HD.
Qed.

End Confinement.

(** ** The cells, as far as the file system goes *)

#[global] Instance same_fs_refl : Reflexive same_fs.
Proof. by intros w. Qed.
#[global] Instance same_fs_trans : Transitive same_fs.
Proof. intros w1 w2 w3 [H1 H2] [H3 H4]. split; congruence. Qed.

#[global] Instance on_world_refl {V} (R : world → world → Prop)
  `{!Reflexive R} : Reflexive (on_world (V := V) R).
Proof. intros s. unfold on_world. reflexivity. Qed.
#[global] Instance on_world_trans {V} (R : world → world → Prop)
  `{!Transitive R} : Transitive (on_world (V := V) R).
Proof. intros s1 s2 s3. unfold on_world. apply transitivity. Qed.

Lemma read_file_same_fs (path : string) : keeps same_fs (read_file path).
Proof. intros w r w'. rewrite read_file_run. by intros [= <- <-]. Qed.

Section Cells.

Variable zip_decode : list byte → option (list (string * option (list byte))).
Variable cell : Type.
Variable csv_parse : list byte → outcome (DataFrame cell).
Variable excel_parse : nat → list byte → outcome (DataFrame cell).

Lemma keeps_io {A} (R : world → world → Prop) (m : M A) :
  keeps R m → keeps (on_world (V := gmap string (value cell)) R) (io m).
Proof.
  intros Hm [ns w] r [ns' w']. unfold io, on_world. simpl.
  destruct (m w) as [r1 w1] eqn:E. intros [= <- <- <-].
  by apply (Hm _ _ _ E).
Qed.

Lemma keeps_assign (R : world → world → Prop) `{!Reflexive R}
    (x : string) (v : value cell) :
  keeps (on_world R) (assign x v).
Proof. intros [ns w] r [ns' w'] [= <- <- <-]. unfold on_world. reflexivity. Qed.

Lemma keeps_var (R : world → world → Prop) `{!Reflexive R} (x : string) :
  keeps (on_world R) (var (cell := cell) x).
Proof.
  intros [ns w] r [ns' w']. unfold var, on_world. simpl.
  destruct (ns !! x); intros [= <- <- <-]; reflexivity.
Qed.

Lemma read_csv_same_fs (path : string) : keeps same_fs (read_csv csv_parse path).
Proof.
  unfold read_csv. apply keeps_bind; try apply _.
  - apply read_file_same_fs.
  - intros bs. apply keeps_lift. apply _.
Qed.

Lemma read_excel_same_fs (path : string) (header : nat) :
  keeps same_fs (read_excel excel_parse path header).
Proof.
  unfold read_excel. apply keeps_bind; try apply _.
  - apply read_file_same_fs.
  - intros bs. apply keeps_lift. apply _.
Qed.

(** The fetch cell runs [download_all] on ['data']. *)
Lemma cell_fetch_run (ns : gmap string (value cell)) (w : world) :
  cell_fetch zip_decode (ns, w) =
  ((download_all zip_decode "data" w).1,
   (<["path" := VStr "data"]> ns, (download_all zip_decode "data" w).2)).
Proof.
  unfold cell_fetch. rewrite bind_run. simpl. rewrite bind_run.
  unfold var. simpl. rewrite lookup_insert_eq. rewrite bind_run. simpl.
  unfold io. simpl. by destruct (download_all zip_decode "data" w).
Qed.

Ltac read_only :=
  repeat first
    [ apply keeps_assign; apply _
    | apply keeps_var; apply _
    | apply keeps_lift; apply _
    | apply keeps_io; first [apply read_csv_same_fs | apply read_excel_same_fs]
    | apply keeps_bind; try apply _; [| intros ?] ].

Lemma cell_load_occupancy_same_fs :
  keeps (on_world same_fs) (cell_load_occupancy csv_parse).
Proof. unfold cell_load_occupancy. read_only. Qed.

Lemma cell_separate_same_fs :
  keeps (on_world same_fs) (cell_separate (cell := cell)).
Proof. unfold cell_separate. read_only. Qed.

Lemma cell_load_credit_same_fs :
  keeps (on_world same_fs) (cell_load_credit excel_parse).
Proof. unfold cell_load_credit. read_only. Qed.

Lemma cell_load_concrete_same_fs :
  keeps (on_world same_fs) (cell_load_concrete excel_parse).
Proof. unfold cell_load_concrete. read_only. Qed.

(** C7.  Whatever its outcome, the fetch cell changes nothing outside
    the directory [data] of the working directory: the directory itself,
    the three downloaded files in it and what is extracted below
    [data/occupancy].  The cells that load and separate the tables only
    read.  In the plotting notebook the cell of the two quadratics
    changes one file, [figures/quadratics.png], and the cell that lists
    the styles none. *)
Theorem writes_are_confined :
  (∀ (ns ns' : gmap string (value cell)) w r w',
     cell_fetch zip_decode (ns, w) = (r, (ns', w')) →
     within ("data" :: cwd w) w w') ∧
  (∀ s r s',
     cell_load_occupancy csv_parse s = (r, s') ∨
     cell_separate s = (r, s') ∨
     cell_load_credit excel_parse s = (r, s') ∨
     cell_load_concrete excel_parse s = (r, s') →
     fs s'.2 = fs s.2) ∧
  (∀ image w r w',
     cell_quadratics image w = (r, w') →
     within ("figures" :: cwd w) w w' ∧
     ∀ x, x ≠ "quadratics.png" :: "figures" :: cwd w →
          fs w' !! x = fs w !! x) ∧
  (∀ available w r w',
     cell_styles available w = (r, w') → fs w' = fs w).
Proof.
  split; [| split; [| split]].
  - intros ns ns' w r w'. rewrite cell_fetch_run. intros [= <- <- <-].
    apply (download_all_within zip_decode w _ (download_all zip_decode "data" w).1).
    by destruct (download_all zip_decode "data" w).
  - intros s r s' [H | [H | [H | H]]].
    + by apply cell_load_occupancy_same_fs in H as [H _].
    + by apply cell_separate_same_fs in H as [H _].
    + by apply cell_load_credit_same_fs in H as [H _].
    + by apply cell_load_concrete_same_fs in H as [H _].
  - intros image w r w' H. unfold cell_quadratics, savefig in H.
    apply write_touches in H.
    change (norm_loc w "figures/quadratics.png")
      with ("quadratics.png" :: "figures" :: cwd w) in H.
    split; [| apply H].
    apply (touches_within _ ("quadratics.png" :: "figures" :: cwd w));
      [by apply suffix_cons_r | exact H].
  - intros available w r w'. revert w.
    induction available as [|style available IH]; intros w; simpl.
    + by intros [= <- <-].
    + unfold cell_styles in *. simpl. rewrite bind_run. simpl.
      intros H. by rewrite (IH _ H).
Qed.

End Cells.

Lemma writes_are_confined_witness :
  fs (download_all Sample.unzip "data" Sample.fresh).2 !! ["tmp"]
  = fs Sample.fresh !! ["tmp"].
Proof.
  destruct (proj1 (writes_are_confined Sample.unzip nat Sample.parse
                     Sample.parse_excel)
              ∅
              (cell_fetch Sample.unzip (cell := nat) (∅, Sample.fresh)).2.1
              Sample.fresh
              (cell_fetch Sample.unzip (cell := nat) (∅, Sample.fresh)).1
              (download_all Sample.unzip "data" Sample.fresh).2)
    as [_ Hf]; [vm_compute; reflexivity |].
  apply Hf. intros Hs. apply suffix_length in Hs. simpl in Hs. lia.
Defined.

(** ** Further properties: the tables *)

Lemma read_file_Some (path : string) (w : world) (bs : list byte) :
  file_content w path = Some bs →
  read_file path w = (Ok bs, emit (EvOpenRB path) w).
Proof.
  rewrite read_file_run. unfold file_content.
  destruct (resolve w path) as [l|e]; [| discriminate].
  destruct (fs w !! l) as [[|b]|]; try discriminate. by intros [= ->].
Qed.

Lemma read_file_None (path : string) (w : world) :
  file_content w path = None →
  ∃ e, read_file path w = (Raise e, emit (EvOpenRB path) w).
Proof.
  rewrite read_file_run. unfold file_content.
  destruct (resolve w path) as [l|e]; [| eauto].
  destruct (fs w !! l) as [[|b]|]; try discriminate; eauto.
Qed.

Section TableFacts.

Variable cell : Type.
Variable csv_parse : list byte → outcome (DataFrame cell).
Variable excel_parse : nat → list byte → outcome (DataFrame cell).

Implicit Types (df : DataFrame cell) (ns : gmap string (value cell)).

Lemma set_columns_renamed df (names : list string) :
  length names = length (cols df) →
  set_columns df names = Ok (renamed df names).
Proof. intros H. unfold set_columns. by destruct (decide _). Qed.

Lemma renamed_columns df (names : list string) :
  length names = length (cols df) → columns (renamed df names) = names.
Proof.
  intros H. unfold columns. simpl. apply fst_zip. rewrite length_fmap. lia.
Qed.

(** The load cells, run. *)
Lemma loading_run (x p0 : string) (rd : string → M (DataFrame cell))
    (names : list string) ns (w : world) :
  loading x p0 rd names (ns, w) =
  match rd p0 w with
  | (Raise e, w1) => (Raise e, (<[x := VStr p0]> ns, w1))
  | (Ok df, w1) =>
      match set_columns df names with
      | Ok r => (Ok tt, (<[x := VFrame r]> ns, w1))
      | Raise e => (Raise e, (<[x := VFrame df]> ns, w1))
      end
  end.
Proof.
  unfold loading. rewrite bind_run. simpl. rewrite bind_run.
  unfold var. simpl. rewrite lookup_insert_eq. rewrite bind_run. simpl.
  rewrite bind_run. unfold io. simpl.
  destruct (rd p0 w) as [[df|e] w1]; [| reflexivity].
  rewrite bind_run. simpl. rewrite bind_run. simpl.
  rewrite lookup_insert_eq. rewrite bind_run. simpl. rewrite bind_run. simpl.
  destruct (set_columns df names) as [r|e]; unfold assign, modify; simpl;
    by rewrite !insert_insert_eq.
Qed.

Lemma cell_load_concrete_run ns (w : world) :
  cell_load_concrete excel_parse (ns, w) =
  match read_excel excel_parse "data/concrete.xls" 0 w with
  | (Raise e, w1) => (Raise e, (ns, w1))
  | (Ok df, w1) =>
      match set_columns df concrete_columns with
      | Ok r => (Ok tt, (<["concrete" := VFrame r]> ns, w1))
      | Raise e => (Raise e, (<["concrete" := VFrame df]> ns, w1))
      end
  end.
Proof.
  unfold cell_load_concrete. rewrite bind_run. unfold io. simpl.
  change (os_path_joinl "data" ["concrete.xls"]) with "data/concrete.xls".
  destruct (read_excel _ _ _ w) as [[df|e] w1]; [| reflexivity].
  rewrite bind_run. simpl. rewrite bind_run. unfold var. simpl.
  rewrite lookup_insert_eq. rewrite bind_run. simpl. rewrite bind_run. simpl.
  destruct (set_columns df concrete_columns) as [r|e];
    unfold assign, modify; simpl; by rewrite ?insert_insert_eq.
Qed.

Lemma read_csv_Some (path : string) (w : world) (bs : list byte) :
  file_content w path = Some bs →
  read_csv csv_parse path w = (csv_parse bs, emit (EvOpenRB path) w).
Proof.
  intros H. unfold read_csv. by rewrite bind_run, (read_file_Some _ _ _ H).
Qed.

Lemma read_csv_None (path : string) (w : world) :
  file_content w path = None →
  ∃ e, read_csv csv_parse path w = (Raise e, emit (EvOpenRB path) w).
Proof.
  intros H. destruct (read_file_None _ _ H) as (e & He). exists e.
  unfold read_csv. by rewrite bind_run, He.
Qed.

Lemma read_excel_Some (path : string) (header : nat) (w : world) (bs : list byte) :
  file_content w path = Some bs →
  read_excel excel_parse path header w
  = (excel_parse header bs, emit (EvOpenRB path) w).
Proof.
  intros H. unfold read_excel. by rewrite bind_run, (read_file_Some _ _ _ H).
Qed.

Lemma read_excel_None (path : string) (header : nat) (w : world) :
  file_content w path = None →
  ∃ e, read_excel excel_parse path header w
       = (Raise e, emit (EvOpenRB path) w).
Proof.
  intros H. destruct (read_file_None _ _ H) as (e & He). exists e.
  unfold read_excel. by rewrite bind_run, He.
Qed.

(** *** Selecting by label from distinct labels *)

Lemma labelled_none (name : string) (cs : list (string * list cell)) :
  name ∉ cs.*1 →
  List.filter (λ c : string * list cell, String.eqb c.1 name) cs = [].
Proof.
  induction cs as [|c cs IH]; [done |]. simpl. intros H.
  apply not_elem_of_cons in H as [Hne Hni].
  destruct (String.eqb c.1 name) eqn:E.
  - apply String.eqb_eq in E. congruence.
  - by apply IH.
Qed.

Lemma labelled_unique df (c : string * list cell) :
  NoDup (columns df) → c ∈ cols df → labelled c.1 df = [c].
Proof.
  unfold labelled, columns. induction (cols df) as [|c0 cs IH]; intros Hnd Hin.
  - by apply elem_of_nil in Hin.
  - simpl in *. apply NoDup_cons in Hnd as [Hni Hnd].
    apply elem_of_cons in Hin as [-> | Hin].
    + rewrite String.eqb_refl. by rewrite labelled_none.
    + destruct (String.eqb c0.1 c.1) eqn:E; [| by apply IH].
      apply String.eqb_eq in E. exfalso. apply Hni. rewrite E.
      apply list_elem_of_fmap. by exists c.
Qed.

Lemma getitem_missing df (name : string) :
  name ∉ columns df → getitem df name = Raise (KeyError name).
Proof. intros H. unfold getitem, labelled. by rewrite labelled_none. Qed.

Lemma getitem_unique df (c : string * list cell) :
  NoDup (columns df) → c ∈ cols df →
  getitem df c.1 =
  Ok (VSeries {| sname := c.1; sindex := index df; svalues := c.2 |}).
Proof. intros Hnd Hin. unfold getitem. by rewrite labelled_unique. Qed.

Lemma select_distinct df (sel : list string) :
  NoDup (columns df) → Forall (λ n, n ∈ columns df) sel →
  ∃ cs, select df sel = Ok cs ∧ cs.*1 = sel ∧ Forall (λ c, c ∈ cols df) cs.
Proof.
  intros Hnd. induction sel as [|n sel IH]; intros Hsel.
  - exists []. by repeat split.
  - apply Forall_cons in Hsel as [Hn Hsel].
    destruct (IH Hsel) as (cs & Hcs & Hfst & Hall).
    apply list_elem_of_fmap in Hn as (c & -> & Hc).
    exists (c :: cs). simpl. rewrite (labelled_unique _ _ Hnd Hc), Hcs.
    split; [done |]. split; [f_equal; exact Hfst |]. by apply Forall_cons.
Qed.

Lemma label_determines (l : list (string * list cell)) (n : string)
    (v v' : list cell) :
  NoDup l.*1 → (n, v) ∈ l → (n, v') ∈ l → v = v'.
Proof.
  intros Hnd [i Hi]%list_elem_of_lookup [j Hj]%list_elem_of_lookup.
  assert (i = j) as ->.
  { apply (NoDup_lookup l.*1 i j n Hnd); rewrite list_lookup_fmap.
    - by rewrite Hi.
    - by rewrite Hj. }
  congruence.
Qed.

(** Columns taken from a table with distinct labels are determined by
    their labels. *)
Lemma columns_determined (l cs t : list (string * list cell)) :
  NoDup l.*1 → cs.*1 = t.*1 →
  Forall (λ c, c ∈ l) cs → Forall (λ c, c ∈ l) t → cs = t.
Proof.
  intros Hnd. revert t. induction cs as [|c cs IH]; intros [|c' t]; try done.
  simpl. intros [= H1 H2] [Hc Hcs]%Forall_cons [Hc' Ht]%Forall_cons.
  f_equal; [| by apply IH].
  destruct c as [n v], c' as [n' v']. simpl in H1. subst n'.
  f_equal. by apply (label_determines l n).
Qed.

(** The separating cells, run on a table with distinct labels. *)
Lemma separating_run (tbl : string) (sel : list string) (fvar lab lvar : string)
    ns (w : world) df :
  ns !! tbl = Some (VFrame df) → tbl ≠ fvar →
  NoDup (columns df) → Forall (λ n, n ∈ columns df) sel → lab ∈ columns df →
  ∃ cs v,
    separating tbl sel fvar lab lvar (ns, w) =
    (Ok tt,
     (<[lvar := VSeries {| sname := lab; sindex := index df; svalues := v |}]>
        (<[fvar := VFrame {| index := index df; cols := cs |}]> ns), w)) ∧
    cs.*1 = sel ∧ Forall (λ c, c ∈ cols df) cs ∧ (lab, v) ∈ cols df.
Proof.
  intros Hns Hne Hnd Hsel Hlab.
  destruct (select_distinct _ _ Hnd Hsel) as (cs & Hcs & Hfst & Hall).
  apply list_elem_of_fmap in Hlab as ([lab' v] & -> & Hc).
  exists cs, v. split; [| done].
  unfold separating. rewrite bind_run. unfold var. simpl. rewrite Hns.
  rewrite bind_run. simpl. rewrite bind_run. unfold getitem_list. simpl.
  rewrite Hcs. simpl. rewrite bind_run. simpl. rewrite bind_run. simpl.
  rewrite lookup_insert_ne by done. rewrite Hns.
  rewrite bind_run. simpl. rewrite bind_run. simpl.
  pose proof (getitem_unique df (lab', v) Hnd Hc) as Hg. simpl in Hg.
  rewrite Hg. reflexivity.
Qed.

End TableFacts.

Lemma select_positions {cell} (names : list string) (vals : list (list cell))
    (j k : nat) (cs : list (string * list cell)) :
  NoDup names → length names = length vals →
  cs.*1 = take k (drop j names) →
  Forall (λ c, c ∈ zip names vals) cs →
  cs = take k (drop j (zip names vals)).
Proof.
  intros Hnd Hlen Hfst Hall.
  apply (columns_determined cell (zip names vals)).
  - rewrite fst_zip by lia. exact Hnd.
  - rewrite Hfst, fmap_take, fmap_drop, fst_zip by lia. reflexivity.
  - exact Hall.
  - apply Forall_forall. intros c Hc.
    by apply (subseteq_drop j), (subseteq_take k).
Qed.

Lemma label_position {cell} (names : list string) (vals : list (list cell))
    (i : nat) (n : string) (v : list cell) :
  NoDup names → names !! i = Some n → (n, v) ∈ zip names vals →
  vals !! i = Some v.
Proof.
  intros Hnd Hi [j Hj]%list_elem_of_lookup.
  apply lookup_zip_with_Some in Hj as (n' & v' & [= <- <-] & Hn & Hv).
  by rewrite (NoDup_lookup names i j n Hnd Hi Hn).
Qed.

Lemma occupancy_columns_distinct : NoDup occupancy_columns.
Proof. apply (bool_decide_unpack _). by vm_compute. Qed.
Lemma credit_columns_distinct : NoDup credit_columns.
Proof. apply (bool_decide_unpack _). by vm_compute. Qed.
Lemma concrete_columns_distinct : NoDup concrete_columns.
Proof. apply (bool_decide_unpack _). by vm_compute. Qed.

Section TableProperties.

Variable cell : Type.
Variable csv_parse : list byte → outcome (DataFrame cell).
Variable excel_parse : nat → list byte → outcome (DataFrame cell).

Implicit Types (df : DataFrame cell) (ns : gmap string (value cell)).

(** X8.  When the data file cannot be read or parsed the load cell raises
    with [occupancy] bound to the path, a string; the separating cell,
    run after it, raises [TypeError]. *)
Theorem failed_load_leaves_the_path ns (w : world) :
  file_content w "data/occupancy/datatraining.txt" = None ∨
  (∃ bs e, file_content w "data/occupancy/datatraining.txt" = Some bs ∧
           csv_parse bs = Raise e) →
  ∃ e,
    let s1 := (<["occupancy" := VStr "data/occupancy/datatraining.txt"]> ns,
               emit (EvOpenRB "data/occupancy/datatraining.txt") w) in
    cell_load_occupancy csv_parse (ns, w) = (Raise e, s1) ∧
    cell_separate s1 = (Raise TypeError, s1).
Proof.
  intros H.
  assert (∃ e, read_csv csv_parse "data/occupancy/datatraining.txt" w
               = (Raise e, emit (EvOpenRB "data/occupancy/datatraining.txt") w))
    as (e & He).
  { destruct H as [H | (bs & e & H & Hp)].
    - by apply read_csv_None.
    - exists e. by rewrite (read_csv_Some _ _ _ _ _ H), Hp. }
  exists e. split.
  - change (cell_load_occupancy csv_parse)
      with (loading "occupancy" "data/occupancy/datatraining.txt"
              (read_csv csv_parse) occupancy_columns).
    by rewrite loading_run, He.
  - unfold cell_separate. rewrite bind_run. unfold var. simpl.
    rewrite lookup_insert_eq. rewrite bind_run. reflexivity.
Qed.

(** X9.  A data file that parses to a table of another width than seven makes
    the load cell raise [ValueError]; [occupancy] is then bound to the
    table as parsed, with the labels of the file. *)
Theorem wrong_width_is_refused ns (w : world) (bs : list byte) df :
  file_content w "data/occupancy/datatraining.txt" = Some bs →
  csv_parse bs = Ok df →
  length (cols df) ≠ 7 →
  cell_load_occupancy csv_parse (ns, w) =
  (Raise ValueError,
   (<["occupancy" := VFrame df]> ns,
    emit (EvOpenRB "data/occupancy/datatraining.txt") w)).
Proof.
  intros Hf Hp Hlen.
  change (cell_load_occupancy csv_parse)
    with (loading "occupancy" "data/occupancy/datatraining.txt"
            (read_csv csv_parse) occupancy_columns).
  rewrite loading_run, (read_csv_Some _ _ _ _ _ Hf), Hp.
  rewrite set_columns_refused; [reflexivity |]. simpl. congruence.
Qed.

(** X10.  Once the load cell has completed the separating cell cannot fail,
    whatever table the file held, and [list(features)] is then the five
    feature names in their order. *)
Theorem separate_after_load (s s1 : gmap string (value cell) * world) :
  cell_load_occupancy csv_parse s = (Ok tt, s1) →
  ∃ s2,
    cell_separate s1 = (Ok tt, s2) ∧ s2.2 = s1.2 ∧
    cell_list_features s2 =
      (Ok (Labels ["temp"; "humid"; "light"; "co2"; "hratio"]), s2).
Proof.
  destruct s as [ns w].
  change (cell_load_occupancy csv_parse)
    with (loading "occupancy" "data/occupancy/datatraining.txt"
            (read_csv csv_parse) occupancy_columns).
  rewrite loading_run.
  destruct (read_csv _ _ _) as [[df|e] w1]; [| discriminate].
  destruct (set_columns df occupancy_columns) as [r|e] eqn:Hr; [| discriminate].
  intros [= <-].
  apply set_columns_Ok in Hr as (_ & Hc & _).
  destruct (separating_run cell "occupancy" feature_columns "features"
              "occupied" "labels" (<["occupancy" := VFrame r]> ns) w1 r)
    as (cs & v & Hrun & Hfst & _).
  - apply lookup_insert_eq.
  - done.
  - rewrite Hc. apply occupancy_columns_distinct.
  - rewrite Hc. apply (bool_decide_unpack _). by vm_compute.
  - rewrite Hc. apply (bool_decide_unpack _). by vm_compute.
  - eexists. split; [exact Hrun |]. split; [reflexivity |].
    unfold cell_list_features. rewrite bind_run. unfold var. simpl.
    rewrite lookup_insert_ne by done. rewrite lookup_insert_eq.
    unfold py_list, columns. simpl. by rewrite Hfst.
Qed.

(** X11.  The exercise cell on sheets of the expected widths, 25 and 9 columns:
    it completes; the feature tables are the columns 2 to 24 of the
    credit sheet and the first eight of the concrete sheet, under the
    assigned labels and with the sheets' values; the targets are the last
    column of each; the two files are read in this order and nothing else
    is done to the world. *)
Theorem exercise_cell_completes ns (w : world) (bs1 bs2 : list byte)
    (t1 t2 : DataFrame cell) :
  file_content w "data/credit.xls" = Some bs1 →
  excel_parse 1 bs1 = Ok t1 → length (cols t1) = 25 →
  file_content w "data/concrete.xls" = Some bs2 →
  excel_parse 0 bs2 = Ok t2 → length (cols t2) = 9 →
  ∃ ns' v1 v2,
    cell_exercise excel_parse (ns, w) =
      (Ok tt, (ns', emit (EvOpenRB "data/concrete.xls")
                      (emit (EvOpenRB "data/credit.xls") w))) ∧
    ns' !! "credit" = Some (VFrame (renamed t1 credit_columns)) ∧
    ns' !! "cred_features" =
      Some (VFrame {| index := index t1;
                      cols := take 23 (drop 1 (cols (renamed t1 credit_columns))) |}) ∧
    ns' !! "cred_labels" =
      Some (VSeries {| sname := "default"; sindex := index t1; svalues := v1 |}) ∧
    (cols t1).*2 !! 24 = Some v1 ∧
    ns' !! "concrete" = Some (VFrame (renamed t2 concrete_columns)) ∧
    ns' !! "conc_features" =
      Some (VFrame {| index := index t2;
                      cols := take 8 (cols (renamed t2 concrete_columns)) |}) ∧
    ns' !! "conc_labels" =
      Some (VSeries {| sname := "strength"; sindex := index t2; svalues := v2 |}) ∧
    (cols t2).*2 !! 8 = Some v2.
Proof.
  intros Hf1 Hp1 Hl1 Hf2 Hp2 Hl2.
  assert (length (cols t1).*2 = 25) as Hv1 by (by rewrite length_fmap).
  assert (length (cols t2).*2 = 9) as Hv2 by (by rewrite length_fmap).
  set (w1 := emit (EvOpenRB "data/credit.xls") w).
  set (r1 := renamed t1 credit_columns).
  set (r2 := renamed t2 concrete_columns).
  set (ns1 := <["credit" := VFrame r1]> ns).
  (* the credit sheet *)
  destruct (separating_run cell "credit" credit_feature_columns "cred_features"
              "default" "cred_labels" ns1 w1 r1)
    as (cs1 & v1 & Hrun1 & Hfst1 & Hall1 & Hlab1).
  { apply lookup_insert_eq. }
  { done. }
  { unfold r1. rewrite renamed_columns by done. apply credit_columns_distinct. }
  { unfold r1. rewrite renamed_columns by done.
    apply (bool_decide_unpack _). by vm_compute. }
  { unfold r1. rewrite renamed_columns by done.
    apply (bool_decide_unpack _). by vm_compute. }
  assert (cs1 = take 23 (drop 1 (cols r1))) as ->.
  { apply select_positions;
      [apply credit_columns_distinct | by rewrite Hv1 | exact Hfst1 | exact Hall1]. }
  apply (label_position credit_columns _ 24) in Hlab1;
    [| apply credit_columns_distinct | reflexivity].
  set (ns2 := <["cred_labels" := VSeries {| sname := "default";
                   sindex := index r1; svalues := v1 |}]>
                (<["cred_features" := VFrame {| index := index r1;
                     cols := take 23 (drop 1 (cols r1)) |}]> ns1)) in *.
  set (ns3 := <["concrete" := VFrame r2]> ns2).
  (* the concrete sheet *)
  destruct (separating_run cell "concrete" concrete_feature_columns
              "conc_features" "strength" "conc_labels" ns3
              (emit (EvOpenRB "data/concrete.xls") w1) r2)
    as (cs2 & v2 & Hrun2 & Hfst2 & Hall2 & Hlab2).
  { apply lookup_insert_eq. }
  { done. }
  { unfold r2. rewrite renamed_columns by done. apply concrete_columns_distinct. }
  { unfold r2. rewrite renamed_columns by done.
    apply (bool_decide_unpack _). by vm_compute. }
  { unfold r2. rewrite renamed_columns by done.
    apply (bool_decide_unpack _). by vm_compute. }
  assert (cs2 = take 8 (drop 0 (cols r2))) as ->.
  { apply select_positions;
      [apply concrete_columns_distinct | by rewrite Hv2 | exact Hfst2 | exact Hall2]. }
  apply (label_position concrete_columns _ 8) in Hlab2;
    [| apply concrete_columns_distinct | reflexivity].
  eexists _, v1, v2. split.
  { unfold cell_exercise. rewrite bind_run.
    change (cell_load_credit excel_parse)
      with (loading "credit" "data/credit.xls"
              (λ p, read_excel excel_parse p 1) credit_columns).
    rewrite loading_run, (read_excel_Some _ _ _ _ _ _ Hf1), Hp1.
    rewrite set_columns_renamed by done.
    rewrite bind_run.
    change (@cell_separate_credit cell)
      with (separating (cell := cell) "credit" credit_feature_columns
              "cred_features" "default" "cred_labels").
    fold r1 ns1 w1. rewrite Hrun1. fold ns2.
    rewrite bind_run, cell_load_concrete_run.
    assert (file_content w1 "data/concrete.xls" = Some bs2) as Hf2'
      by exact Hf2.
    rewrite (read_excel_Some _ _ _ _ _ _ Hf2'), Hp2.
    rewrite set_columns_renamed by done.
    change (@cell_separate_concrete cell)
      with (separating (cell := cell) "concrete" concrete_feature_columns
              "conc_features" "strength" "conc_labels").
    fold r2 ns3. exact Hrun2. }
  unfold ns3, ns2, ns1.
  repeat split; try exact Hlab1; try exact Hlab2;
    by rewrite ?lookup_insert_ne, ?lookup_insert_eq by done.
Qed.

(** X12.  When the credit file cannot be read the exercise cell stops there:
    [credit] is left bound to the path, no other name is bound and the
    concrete file is not opened. *)
Theorem exercise_stops_at_credit ns (w : world) :
  file_content w "data/credit.xls" = None →
  ∃ e, cell_exercise excel_parse (ns, w) =
       (Raise e, (<["credit" := VStr "data/credit.xls"]> ns,
                  emit (EvOpenRB "data/credit.xls") w)).
Proof.
  intros H. destruct (read_excel_None cell excel_parse _ 1 _ H) as (e & He).
  exists e. unfold cell_exercise. rewrite bind_run.
  change (cell_load_credit excel_parse)
    with (loading "credit" "data/credit.xls"
            (λ p, read_excel excel_parse p 1) credit_columns).
  by rewrite loading_run, He.
Qed.

End TableProperties.

Lemma failed_load_leaves_the_path_witness :
  (cell_load_occupancy Sample.parse (∅, Sample.fresh)).1 ≠ Ok tt.
Proof.
  destruct (failed_load_leaves_the_path nat Sample.parse ∅ Sample.fresh)
    as (e & H1 & _); [left; vm_compute; reflexivity |].
  cbv zeta in H1. rewrite H1. discriminate.
Defined.

Lemma wrong_width_is_refused_witness :
  (cell_load_occupancy Sample.parse_narrow (∅, Sample.extracted)).1
  = Raise ValueError.
Proof.
  rewrite (wrong_width_is_refused nat Sample.parse_narrow ∅ Sample.extracted
             (Sample.bytes 3)
             {| index := [1]; cols := [("a", [10]); ("b", [20])] |});
    [reflexivity | vm_compute; reflexivity | reflexivity | simpl; lia].
Defined.

Lemma separate_after_load_witness :
  ∃ s2, cell_separate
          (cell_load_occupancy Sample.parse (∅, Sample.extracted)).2
        = (Ok tt, s2).
Proof.
  destruct (separate_after_load nat Sample.parse (∅, Sample.extracted)
              (cell_load_occupancy Sample.parse (∅, Sample.extracted)).2)
    as (s2 & H & _); [vm_compute; reflexivity |].
  exists s2. exact H.
Defined.

Lemma exercise_cell_completes_witness :
  (cell_exercise Sample.parse_sheets (∅, Sample.extracted)).1 = Ok tt.
Proof.
  destruct (exercise_cell_completes nat Sample.parse_sheets ∅ Sample.extracted
              (Sample.bytes 4) (Sample.bytes 5) (Sample.sheet 25) (Sample.sheet 9))
    as (ns' & v1 & v2 & H & _);
    [vm_compute; reflexivity | reflexivity | reflexivity
    | vm_compute; reflexivity | reflexivity | reflexivity |].
  by rewrite H.
Defined.

Lemma exercise_stops_at_credit_witness :
  (cell_exercise Sample.parse_sheets (∅, Sample.fresh)).1 ≠ Ok tt.
Proof.
  destruct (exercise_stops_at_credit nat Sample.parse_sheets ∅ Sample.fresh)
    as (e & H); [vm_compute; reflexivity |].
  rewrite H. discriminate.
Defined.

(** ** Further properties: the fetcher *)

Lemma keeps_modify {S} (R : S → S → Prop) (f : S → S) :
  (∀ s, R s (f s)) → keeps R (modify f).
Proof. intros H s r s' [= <- <-]. apply H. Qed.

Lemma keeps_weaken {S A} (R R' : S → S → Prop) (m : ME S A) :
  (∀ s s', R s s' → R' s s') → keeps R m → keeps R' m.
Proof. intros H Hm s r s' E. apply H, (Hm _ _ _ E). Qed.

(** What holds of the primitive steps holds of the fetcher. *)
Section FetcherKeeps.

Context (R : world → world → Prop) `{!Reflexive R, !Transitive R}.
Context (Q : event → Prop).
Hypothesis R_emit : ∀ e w, Q e → R w (emit e w).
Hypothesis R_pending : ∀ p w, R w (set_pending p w).
Hypothesis R_mkdir : ∀ l, keeps R (mkdir_at l).
Hypothesis R_truncate : ∀ l, keeps R (truncate_at l).
Hypothesis R_append : ∀ l data, keeps R (append_at l data).

Lemma keeps_resolving (p : string) : keeps R (resolving p).
Proof. intros w r w' [= <- <-]. reflexivity. Qed.

Lemma keeps_resolving_new (p : string) : keeps R (resolving_new p).
Proof. intros w r w' [= <- <-]. reflexivity. Qed.

Lemma keeps_resolving_wb (p : string) : keeps R (resolving_wb p).
Proof. intros w r w' [= <- <-]. reflexivity. Qed.

Lemma keeps_os_path_exists (path : string) :
  Q (EvExists path) → keeps R (os_path_exists path).
Proof.
  intros HQ w r w'. rewrite os_path_exists_run. intros [= <- <-]. by apply R_emit.
Qed.

Lemma keeps_os_mkdir (path : string) :
  Q (EvMkdir path) → keeps R (os_mkdir path).
Proof.
  intros HQ. unfold os_mkdir. apply keeps_bind; try apply _.
  - apply keeps_modify. intros w. by apply R_emit.
  - intros _. apply keeps_bind; try apply _;
      [apply keeps_resolving_new | intros l; apply R_mkdir].
Qed.

Lemma keeps_requests_get (url : string) :
  Q (EvGet url) → keeps R (requests_get url).
Proof.
  intros HQ w r w'. rewrite requests_get_run.
  destruct (pending w) as [|[body|e] rest]; intros [= <- <-].
  - by apply R_emit.
  - transitivity (emit (EvGet url) w); [by apply R_emit | apply R_pending].
  - transitivity (emit (EvGet url) w); [by apply R_emit | apply R_pending].
Qed.

Lemma keeps_open_wb (p : string) : Q (EvOpenWB p) → keeps R (open_wb p).
Proof.
  intros HQ. unfold open_wb. apply keeps_bind; try apply _.
  - apply keeps_modify. intros w. by apply R_emit.
  - intros _. apply keeps_bind; try apply _; [apply keeps_resolving_wb |].
    intros l. apply keeps_bind; try apply _; [apply R_truncate |].
    intros _. apply keeps_ret. apply _.
Qed.

Lemma keeps_file_write (f : handle) (data : list byte) :
  Q (EvWrite (hpath f) data) → keeps R (file_write f data).
Proof.
  intros HQ. unfold file_write. apply keeps_bind; try apply _.
  - apply keeps_modify. intros w. by apply R_emit.
  - intros _. apply R_append.
Qed.

Lemma keeps_download_data (url name path : string) :
  (∀ e, download_call e → Q e) → keeps R (download_data url name path).
Proof.
  intros HQ. unfold download_data.
  apply keeps_bind; try apply _.
  { apply keeps_os_path_exists. apply HQ. unfold download_call. set_solver. }
  intros ex. apply keeps_bind; try apply _.
  { destruct (negb ex); [| apply keeps_ret; apply _].
    apply keeps_os_mkdir. apply HQ. unfold download_call. set_solver. }
  intros _. apply keeps_bind; try apply _.
  { apply keeps_requests_get. apply HQ. unfold download_call. set_solver. }
  intros resp. apply keeps_bind; try apply _.
  { apply keeps_open_wb. apply HQ. unfold download_call. set_solver. }
  intros f. apply keeps_file_write. apply HQ. unfold download_call. set_solver.
Qed.

Lemma keeps_makedirs_at (l : loc) : keeps R (makedirs_at l).
Proof.
  induction l as [|c d IH]; simpl; [apply R_mkdir |].
  apply keeps_get_world; try apply _. intros w r w'.
  apply keeps_bind; try apply _.
  - destruct (exists_at w d); [apply keeps_ret; try apply _ | exact IH].
  - intros _. apply R_mkdir.
Qed.

Lemma keeps_extract_member (target : string) (m : string * option (list byte)) :
  keeps R (extract_member target m).
Proof.
  unfold extract_member. apply keeps_get_world; try apply _. intros w r w'.
  apply keeps_bind; try apply _.
  - destruct (exists_at w _); [apply keeps_ret; try apply _ | apply keeps_makedirs_at].
  - intros _. destruct (endswith_sep m.1).
    + apply keeps_get_world; try apply _. intros w0 r0 w0'.
      destruct (is_dir_at w0 _); [apply keeps_ret; try apply _ | apply R_mkdir].
    + apply keeps_bind; try apply _; [apply R_truncate |].
      intros _. destruct m.2; [apply R_append | apply keeps_raise; try apply _].
Qed.

Lemma keeps_extractall (z : ZipFile) (target : string) :
  Q (EvExtractAll target) → keeps R (extractall z target).
Proof.
  intros HQ. unfold extractall. apply keeps_bind; try apply _.
  - apply keeps_modify. intros w. by apply R_emit.
  - intros _. apply keeps_for_each; try apply _. apply keeps_extract_member.
Qed.


End FetcherKeeps.

#[global] Instance logs_refl (P : event → Prop) : Reflexive (logs P).
Proof. intros w. exists []. by rewrite app_nil_r. Qed.
#[global] Instance logs_trans (P : event → Prop) : Transitive (logs P).
Proof.
  intros w1 w2 w3 (es1 & H1 & F1) (es2 & H2 & F2). exists (es1 ++ es2).
  split; [by rewrite H2, H1, app_assoc | by apply Forall_app].
Qed.

Lemma quiet_logs (P : event → Prop) (w w' : world) : quiet w w' → logs P w w'.
Proof. intros [H _]. exists []. by rewrite app_nil_r. Qed.

(** Whatever its outcome, [download_data] makes no other calls than
    its own five. *)
Lemma download_data_logs (url name path : string) :
  keeps (logs download_call) (download_data url name path).
Proof.
  apply (keeps_download_data (logs download_call) download_call);
    try done.
  - intros e w He. exists [e]. split; [done | by apply Forall_singleton].
  - intros p w. exists []. simpl. by rewrite app_nil_r.
  - intros l. apply (keeps_weaken quiet); [apply quiet_logs | apply mkdir_at_quiet].
  - intros l. apply (keeps_weaken quiet); [apply quiet_logs | apply truncate_at_quiet].
  - intros l data.
    apply (keeps_weaken quiet); [apply quiet_logs | apply append_at_quiet].
Qed.

Lemma os_mkdir_Raise (path : string) (w w' : world) (e : exn) :
  os_mkdir path w = (Raise e, w') → w' = emit (EvMkdir path) w.
Proof.
  unfold os_mkdir. rewrite bind_run. simpl. rewrite bind_run.
  unfold resolving_new.
  change (resolve_new (emit (EvMkdir path) w) path) with (resolve_new w path).
  destruct (resolve_new w path) as [d|e0]; [| by intros [= _ <-]].
  unfold mkdir_at. simpl. destruct (fs w !! d); [by intros [= _ <-] |].
  destruct (parent_check _ d); [discriminate | by intros [= _ <-]].
Qed.

Lemma lexical_drop_trailing (cs : list string) (cur : loc) :
  lexical cur (drop_trailing_empty cs) = lexical cur cs.
Proof.
  revert cur. induction cs as [|c cs IH]; intros cur; [done |].
  cbn [drop_trailing_empty].
  destruct (drop_trailing_empty cs) as [|r rs] eqn:E.
  - destruct (String.eqb c "") eqn:Ec.
    + apply String.eqb_eq in Ec. subst c. simpl. by rewrite <- IH.
    + simpl. rewrite Ec. simpl.
      destruct (String.eqb c "."); simpl;
        [| destruct (String.eqb c "..")]; by rewrite <- IH.
  - cbn [lexical]. destruct (_ || _); [apply IH |].
    destruct (String.eqb c ".."); apply IH.
Qed.

Lemma norm_new_norm_loc (w : world) (path : string) :
  norm_new w path = norm_loc w path.
Proof. apply lexical_drop_trailing. Qed.

(** Whatever its outcome, [download_data] changes at most the directory
    and the file. *)
Lemma download_data_frame (url name path : string) (w w' : world)
    (r : outcome unit) :
  download_data url name path w = (r, w') →
  grows w w' ∧
  ∀ x, x ≠ norm_loc w path → x ≠ norm_loc w (os_path_join path name) →
       fs w' !! x = fs w !! x.
Proof.
  unfold download_data.
  rewrite bind_run, os_path_exists_run. cbv iota. rewrite bind_run.
  set (w0 := emit (EvExists path) w).
  assert (touches (norm_loc w path) w w0) as H0.
  { split; [by apply grows_same_fs | done]. }
  assert (∀ r1 w1,
    (if negb (path_exists w path) then os_mkdir path else ret ()) w0 = (r1, w1)
    → touches (norm_loc w path) w w1) as Hens.
  { intros r1 w1. destruct (negb _).
    - intros E. apply os_mkdir_touches in E.
      rewrite norm_new_norm_loc in E. destruct E as [[Hc Hd He] Hf].
      split; [by split | exact Hf].
    - intros [= <- <-]. exact H0. }
  destruct ((if negb (path_exists w path) then os_mkdir path else ret ()) w0)
    as [[[]|e] w1]; pose proof (Hens _ _ eq_refl) as [Hg1 Hf1]; clear Hens.
  - rewrite bind_run.
    destruct (requests_get url w1) as [[resp|e] w2] eqn:E2;
      apply requests_get_same_fs in E2 as [Hf2 Hc2].
    + intros H. apply write_touches in H as [Hg3 Hf3].
      assert (grows w w2) as Hg2.
      { apply (grows_trans _ w1); [exact Hg1 | by apply grows_same_fs]. }
      rewrite (norm_loc_grows _ _ _ Hg2) in Hf3.
      split; [by apply (grows_trans _ w2) |].
      intros x Hx1 Hx2. by rewrite (Hf3 x Hx2), Hf2, (Hf1 x Hx1).
    + intros [= <- <-]. split.
      * apply (grows_trans _ w1); [exact Hg1 | by apply grows_same_fs].
      * intros x Hx1 Hx2. by rewrite Hf2, (Hf1 x Hx1).
  - intros [= <- <-]. split; [exact Hg1 |]. intros x Hx1 _. by apply Hf1.
Qed.

(** The directory check of [download_data], whatever its outcome. *)
Lemma ensure_run (path : string) (w w1 : world) (r1 : outcome unit) :
  (if negb (path_exists w path) then os_mkdir path else ret ())
    (emit (EvExists path) w) = (r1, w1) →
  pending w1 = pending w ∧
  (∀ x, x ≠ norm_loc w path → fs w1 !! x = fs w !! x) ∧
  (path_exists w path = true → fs w1 = fs w).
Proof.
  destruct (path_exists w path); simpl negb; cbv iota.
  - by intros [= <- <-].
  - intros E. pose proof (os_mkdir_touches _ _ _ _ E) as [_ Hf].
    rewrite norm_new_norm_loc in Hf.
    split; [| split; [exact Hf | done]].
    destruct r1 as [[]|e].
    + by apply os_mkdir_Ok in E as (d & _ & _ & _ & _ & Hp & _).
    + apply os_mkdir_Raise in E. by subst w1.
Qed.

(** X1.  When the network gives no answer [download_data] raises, and no file
    has been opened: an earlier download under the same name is still
    there.  At most the directory has been made. *)
Theorem failed_request_keeps_files (url name path : string) (w w' : world)
    (r : outcome unit) :
  (∀ body rest, pending w ≠ Ok body :: rest) →
  download_data url name path w = (r, w') →
  (∃ e, r = Raise e) ∧
  (path_exists w path = true → fs w' = fs w) ∧
  (∀ x, x ≠ norm_loc w path → fs w' !! x = fs w !! x).
Proof.
  intros Hnet H. destruct r as [[]|e].
  { apply download_data_Ok in H as (w0 & body & rest & l & _ & Hp & _).
    by destruct (Hnet body rest). }
  split; [eauto |].
  apply download_data_Raise in H. simpl in H.
  destruct H as [H | (w1 & H1 & H)].
  { apply ensure_run in H as (_ & Hf & Hex). by split. }
  apply ensure_run in H1 as (Hp & Hf & Hex).
  destruct H as [H | (resp & w2 & H2 & _)].
  - apply requests_get_same_fs in H as [H _]. rewrite H. split; [exact Hex |].
    exact Hf.
  - rewrite requests_get_run, Hp in H2.
    destruct (pending w) as [|[body|e'] rest] eqn:E; try discriminate.
    by destruct (Hnet body rest).
Qed.

(** X2.  When the directory is missing and [os.mkdir] cannot make it,
    [download_data] raises what [os.mkdir] raised and has not asked the
    network: no answer is used up and the file system is as it was. *)
Theorem no_request_without_directory (url name path : string) (w w1 : world)
    (e : exn) :
  path_exists w path = false →
  os_mkdir path (emit (EvExists path) w) = (Raise e, w1) →
  download_data url name path w = (Raise e, w1) ∧
  pending w1 = pending w ∧ fs w1 = fs w ∧ gets (log w1) = gets (log w).
Proof.
  intros Hex Hm. split.
  - apply download_data_Raise. simpl. rewrite Hex. by left.
  - apply os_mkdir_Raise in Hm. subst w1. simpl.
    split; [done |]. split; [done |]. rewrite !gets_app. simpl.
    by rewrite !app_nil_r.
Qed.









(** X4.  For a name that is not absolute, a completed [download_data] leaves
    [path] a directory, also when the name has directories of its own. *)
Theorem relative_name_keeps_directory (url name path : string) (w w' : world) :
  startswith_sep name = false →
  download_data url name path w = (Ok tt, w') →
  isdir w' path = true.
Proof.
  intros Hn H. pose proof (download_data_grows _ _ _ _ _ H) as Hgr.
  apply download_data_Ok in H
    as (w0 & body & rest & l & He & _ & _ & Hr & Hnd & Hf & Hc & _).
  pose proof (ensured_exists _ _ _ He) as Hex.
  assert (path ≠ "") as Hne by (intros ->; discriminate Hex).
  rewrite (resolve_join _ _ _ Hne Hn) in Hr.
  destruct (resolve w0 path) as [d|e] eqn:Ed; [| discriminate].
  destruct (split_sep_cons name) as (h & t & Hs). rewrite Hs in Hr.
  apply walk_from_dir in Hr.
  assert (touches l w0 w') as [Hg _].
  { apply (insert_touches l (File body)); [exact Hf | | done].
    by rewrite (ensured_cwd _ _ _ He). }
  unfold isdir, is_dir_at.
  by rewrite (resolve_grows _ _ _ _ Hg Ed), (grows_dir _ _ Hg _ Hr).
Qed.

Section Extraction.

Variable zip_decode : list byte → option (list (string * option (list byte))).

(** X5.  Whatever its outcome, [download_all] opens and extracts the archive
    only after the three downloads have completed. *)
Theorem extraction_needs_three_downloads (path : string) (w w' : world)
    (r : outcome unit) :
  download_all zip_decode path w = (r, w') →
  COpenRB ∈ calls_since w w' ∨ CExtractAll ∈ calls_since w w' →
  ∃ w3, for_each [OCCUPANCY; CREDIT; CONCRETE]
          (λ d, download_data d.1 d.2 path) w = (Ok tt, w3).
Proof.
  unfold download_all. rewrite bind_run.
  destruct (for_each _ _ w) as [[[]|e] w3] eqn:E; [eauto |].
  intros [= <- <-] Hin. exfalso.
  apply (keeps_for_each (logs download_call)) in E
    as (es & Hl & Hall); [| intros d; apply download_data_logs].
  rewrite (calls_since_app _ _ _ Hl) in Hin.
  assert (∀ c, c ∈ call_of <$> es → c ∈ [CExists; CMkdir; CGet; COpenWB; CWrite])
    as Hc.
  { intros c (ev & -> & Hev)%list_elem_of_fmap.
    by apply (proj1 (Forall_forall _ _) Hall). }
  destruct Hin as [Hin | Hin]; apply Hc in Hin;
    repeat (apply elem_of_cons in Hin as [Hin | Hin]; [discriminate |]);
    by apply elem_of_nil in Hin.
Qed.

End Extraction.

Lemma failed_request_keeps_files_witness :
  file_content (download_data "u" "occupancy.zip" "data" Sample.offline).2
    "data/occupancy.zip" = Some (Sample.bytes 9).
Proof.
  destruct (failed_request_keeps_files "u" "occupancy.zip" "data"
              Sample.offline
              (download_data "u" "occupancy.zip" "data" Sample.offline).2
              (download_data "u" "occupancy.zip" "data" Sample.offline).1)
    as (_ & Hf & _).
  - intros body rest. discriminate.
  - vm_compute. reflexivity.
  - unfold file_content, resolve, start in *. rewrite Hf by reflexivity.
    vm_compute. reflexivity.
Defined.

Lemma no_request_without_directory_witness :
  pending (download_data "u" "occupancy.zip" "a/b" Sample.fresh).2
  = pending Sample.fresh.
Proof.
  destruct (no_request_without_directory "u" "occupancy.zip" "a/b"
              Sample.fresh
              (emit (EvMkdir "a/b") (emit (EvExists "a/b") Sample.fresh))
              FileNotFoundError)
    as (H & Hp & _); [reflexivity | vm_compute; reflexivity |].
  rewrite H. exact Hp.
Defined.


Lemma relative_name_keeps_directory_witness :
  isdir (download_data "u" "occupancy.zip" "data" Sample.fresh).2 "data" = true.
Proof.
  apply (relative_name_keeps_directory "u" "occupancy.zip" "data" Sample.fresh);
    [reflexivity | vm_compute; reflexivity].
Defined.

Lemma extraction_needs_three_downloads_witness :
  ∃ w3, for_each [OCCUPANCY; CREDIT; CONCRETE]
          (λ d, download_data d.1 d.2 "data") Sample.fresh = (Ok tt, w3).
Proof.
  apply (extraction_needs_three_downloads Sample.unzip "data" Sample.fresh
           (download_all Sample.unzip "data" Sample.fresh).2
           (download_all Sample.unzip "data" Sample.fresh).1).
  - by destruct (download_all Sample.unzip "data" Sample.fresh).
  - right. apply (bool_decide_unpack _). vm_compute. exact I.
Defined.

(** ** Further properties: the plotting notebook *)

(** Writing a whole file through [open(p, 'wb')], computed: the place
    is free or holds a file, its directory is there and the disk has
    room once the old bytes are given back. *)
Lemma write_run (p : string) (data : list byte) (w : world) (c : string) (d : loc) :
  resolve w p = Ok (c :: d) →
  fs w !! d = Some Dir →
  fs w !! (c :: d) ≠ Some Dir →
  (length data ≤ disk_free w + old_size w (c :: d))%nat →
  (f ← open_wb p ; file_write f data) w =
  (Ok tt,
   {| fs := <[c :: d := File data]> (fs w);
      cwd := cwd w;
      disk_free := disk_free w + old_size w (c :: d) - length data;
      pending := pending w;
      log := log w ++ [EvOpenWB p; EvWrite p data] |}).
Proof.
  intros Hr Hd Hnd Hle. unfold old_size in *.
  destruct (fs w !! (c :: d)) as [[|old]|] eqn:E; [done | |].
  all: apply bind_Ok; eexists _, _; split;
    [ unfold open_wb; apply bind_Ok; eexists _, _; split; [reflexivity |];
      apply bind_Ok; exists (c :: d); eexists; split;
        [unfold resolving_wb; f_equal; rewrite resolve_wb_emit;
         apply (resolve_wb_file w); [exact Hr | by rewrite E] |];
      apply bind_Ok; eexists _, _; split; [| reflexivity];
      unfold truncate_at, parent_check; simpl; rewrite E, ?Hd; reflexivity
    | ].
  all: unfold file_write; apply bind_Ok; eexists _, _; split; [reflexivity |];
    unfold append_at; simpl; rewrite lookup_insert_eq; simpl;
    (destruct (decide _) as [_ | Hn]; [| lia]);
    unfold set_disk_free, set_fs, emit; simpl;
    rewrite insert_insert_eq, <- !app_assoc; do 2 f_equal; f_equal; lia.
Qed.

(** X13.  The notebook never makes [figures]: when the directory is missing the
    cell of the two quadratics raises [FileNotFoundError] after rendering,
    and nothing is written. *)
Theorem savefig_needs_figures (image : list byte) (w : world) :
  fs w !! cwd w = Some Dir →
  fs w !! ("figures" :: cwd w) = None →
  cell_quadratics image w =
  (Raise FileNotFoundError, emit (EvOpenWB "figures/quadratics.png") w).
Proof.
  intros Hc Hf. unfold cell_quadratics, savefig, open_wb.
  rewrite bind_run, bind_run. simpl. rewrite bind_run.
  unfold resolving_wb, resolve_wb, resolve, start. simpl. by rewrite Hc, Hf.
Qed.

(** X14.  When the cell of the two quadratics completes, [figures] was a
    directory before, [figures/quadratics.png] holds the image alone and
    nothing else has changed; running the cell again with the same image
    then leaves the file system as it is, whatever the outcome. *)
Theorem savefig_writes_image (image : list byte) (w w' : world) :
  cell_quadratics image w = (Ok tt, w') →
  let l := "quadratics.png" :: "figures" :: cwd w in
  fs w !! ("figures" :: cwd w) = Some Dir ∧
  fs w' = <[l := File image]> (fs w) ∧
  file_content w' "figures/quadratics.png" = Some image ∧
  ∀ r w'', cell_quadratics image w' = (r, w'') → fs w'' = fs w'.
Proof.
  intros H l. unfold cell_quadratics, savefig in *.
  apply write_Ok in H as (l0 & Hr & Hnd & Hfs & Hcwd & _ & _ & Hfree).
  unfold resolve, start in Hr. simpl in Hr.
  destruct (fs w !! cwd w) as [[|b0]|] eqn:Hc; try discriminate.
  destruct (fs w !! ("figures" :: cwd w)) as [[|b1]|] eqn:Hf; try discriminate.
  injection Hr as <-. fold l in Hnd, Hfs, Hfree.
  assert (fs w' !! cwd w' = Some Dir) as Hc'.
  { rewrite Hfs, Hcwd, lookup_insert_ne; [exact Hc |].
    intros E. apply (f_equal length) in E. simpl in E. lia. }
  assert (fs w' !! ("figures" :: cwd w') = Some Dir) as Hf'.
  { rewrite Hfs, Hcwd, lookup_insert_ne; [exact Hf |].
    intros E. apply (f_equal length) in E. simpl in E. lia. }
  assert (fs w' !! ("quadratics.png" :: "figures" :: cwd w')
          = Some (File image)) as Hl'.
  { rewrite Hfs, Hcwd. apply lookup_insert_eq. }
  assert (resolve w' "figures/quadratics.png"
          = Ok ("quadratics.png" :: "figures" :: cwd w')) as Hr'.
  { unfold resolve, start. simpl. by rewrite Hc', Hf'. }
  split; [reflexivity |]. split; [exact Hfs |].
  split; [unfold file_content; by rewrite Hr', Hl' |].
  intros r w'' H2.
  rewrite (write_run "figures/quadratics.png" image w' _ _ Hr' Hf') in H2.
  - injection H2 as _ <-. simpl. by apply insert_id.
  - by rewrite Hl'.
  - unfold old_size. rewrite Hl'. lia.
Qed.

Lemma printed_app (a b : list event) : printed (a ++ b) = printed a ++ printed b.
Proof. apply omap_app. Qed.

(** X15.  The style listing never fails and prints one line per available
    style, in order, each the style after a dash and a space, so the
    styles can be read back from the lines; it touches neither the file
    system nor the network. *)
Theorem styles_are_listed (available : list string) (w : world) :
  ∃ w' lines,
    cell_styles available w = (Ok tt, w') ∧
    printed (log w') = printed (log w) ++ lines ∧
    lines = (λ style, "- " +:+ style) <$> available ∧
    strip_bullet <$> lines = available ∧
    fs w' = fs w ∧ pending w' = pending w.
Proof.
  revert w. induction available as [|style available IH]; intros w.
  - exists w, []. repeat split; by rewrite ?app_nil_r.
  - destruct (IH (emit (EvPrint ("- " +:+ style)) w))
      as (w' & lines & Hrun & Hp & Hl & Hs & Hf & Hq).
    exists w', (("- " +:+ style) :: lines). split.
    { unfold cell_styles in *. simpl. apply bind_Ok.
      eexists _, _. split; [reflexivity | exact Hrun]. }
    split.
    { rewrite Hp. simpl. rewrite printed_app. simpl. by rewrite <- app_assoc. }
    split; [by rewrite Hl |]. split; [| by split].
    rewrite fmap_cons, Hs. reflexivity.
Qed.

Lemma savefig_needs_figures_witness :
  (cell_quadratics (Sample.bytes 7) Sample.fresh).1 = Raise FileNotFoundError.
Proof.
  rewrite (savefig_needs_figures (Sample.bytes 7) Sample.fresh);
    [reflexivity | vm_compute; reflexivity | vm_compute; reflexivity].
Defined.

Lemma savefig_writes_image_witness :
  file_content (cell_quadratics (Sample.bytes 7) Sample.prepared).2
    "figures/quadratics.png" = Some (Sample.bytes 7).
Proof.
  destruct (savefig_writes_image (Sample.bytes 7) Sample.prepared
              (cell_quadratics (Sample.bytes 7) Sample.prepared).2)
    as (_ & _ & Hc & _); [vm_compute; reflexivity | exact Hc].
Defined.

(** ** Further properties: from the fetch cell to the load cell *)

#[global] Instance preserve_refl (X : loc → Prop) : Reflexive (preserve X).
Proof. by intros w. Qed.
#[global] Instance preserve_trans (X : loc → Prop) : Transitive (preserve X).
Proof.
  intros w1 w2 w3 [Hc1 H1] [Hc2 H2]. split; [congruence | eauto].
Qed.

Lemma touches_preserve (X : loc → Prop) (l : loc) (w w' : world) :
  ¬ X l → touches l w w' → preserve X w w'.
Proof.
  intros Hl [Hg Hf]. split; [apply (grows_cwd _ _ Hg) |].
  intros x n Hx Hn. rewrite Hf; [exact Hn | by intros ->].
Qed.

(** [mkdir] makes what was not there. *)
Lemma mkdir_at_preserve (X : loc → Prop) (l : loc) : keeps (preserve X) (mkdir_at l).
Proof.
  intros w r w'. unfold mkdir_at. destruct (fs w !! l) eqn:E.
  { by intros [= <- <-]. }
  destruct (parent_check w l); intros [= <- <-]; [| done].
  split; [done |]. intros x n _ Hn. simpl.
  rewrite lookup_insert_ne; [exact Hn | congruence].
Qed.

Lemma makedirs_at_preserve (X : loc → Prop) (l : loc) :
  keeps (preserve X) (makedirs_at l).
Proof.
  induction l as [|c d IH]; simpl; [apply mkdir_at_preserve |].
  apply keeps_get_world; try apply _. intros w r w'.
  apply keeps_bind; try apply _.
  - destruct (exists_at w d); [apply keeps_ret; try apply _ | exact IH].
  - intros _. apply mkdir_at_preserve.
Qed.

(** Extracting a member leaves alone whatever is not where the member goes. *)
Lemma extract_member_preserve (X : loc → Prop) (target : string)
    (m : string * option (list byte)) (w w' : world) (r : outcome unit) :
  ¬ X (rev (arcname m.1) ++ norm_loc w target) →
  extract_member target m w = (r, w') → preserve X w w'.
Proof.
  intros HX. unfold extract_member. rewrite bind_run. simpl.
  set (l := rev (arcname m.1) ++ norm_loc w target) in *.
  assert (keeps (preserve X)
    ((if exists_at w (tail l) then ret () else makedirs_at (tail l)) ≫= λ _,
     if endswith_sep m.1
     then get_world ≫= λ w'0, if is_dir_at w'0 l then ret () else mkdir_at l
     else truncate_at l ≫= λ _,
          match m.2 with
          | Some data => append_at l data
          | None => raise BadZipFile
          end)) as Hk; [| apply Hk].
  apply keeps_bind; try apply _.
  - destruct (exists_at w _);
      [apply keeps_ret; try apply _ | apply makedirs_at_preserve].
  - intros _. destruct (endswith_sep m.1).
    + apply keeps_get_world; try apply _. intros w0 r0 w0'.
      destruct (is_dir_at w0 _);
        [apply keeps_ret; try apply _ | apply mkdir_at_preserve].
    + apply keeps_bind; try apply _.
      * intros w0 r0 w0' H. apply truncate_at_touches in H.
        by apply (touches_preserve X l).
      * intros _. destruct m.2; [| apply keeps_raise; try apply _].
        intros w0 r0 w0' H. apply append_at_touches in H.
        by apply (touches_preserve X l).
Qed.

Lemma extract_member_cwd (target : string) (m : string * option (list byte))
    (w w' : world) (r : outcome unit) :
  extract_member target m w = (r, w') → cwd w' = cwd w.
Proof.
  intros H. apply (extract_member_preserve (λ _, False)) in H as [H _]; tauto.
Qed.

Lemma extractall_preserve (X : loc → Prop) (z : ZipFile) (target : string)
    (w w' : world) (r : outcome unit) :
  (∀ arc, ¬ X (arc ++ norm_loc w target)) →
  extractall z target w = (r, w') → preserve X w w'.
Proof.
  intros HX. unfold extractall. rewrite bind_run. simpl.
  set (w0 := emit (EvExtractAll target) w).
  assert (preserve X w w0) as H0 by done.
  assert (∀ arc, ¬ X (arc ++ norm_loc w0 target)) as HX0 by exact HX.
  intros H. transitivity w0; [exact H0 |].
  clearbody w0. clear H0 HX w. revert w0 HX0 H.
  induction (members z) as [|m ms IH]; intros w HX; simpl.
  - by intros [= <- <-].
  - rewrite bind_run.
    destruct (extract_member target m w) as [[[]|e] w1] eqn:E1;
      pose proof (extract_member_cwd _ _ _ _ _ E1) as Hc;
      apply (extract_member_preserve X) in E1; try apply HX.
    + intros H. transitivity w1; [exact E1 |]. apply IH; [| exact H].
      intros arc. unfold norm_loc, start. rewrite Hc. apply HX.
    + by intros [= <- <-].
Qed.

(** *** Well-formed file systems stay well formed *)







#[global] Instance wf_kept_refl : Reflexive wf_kept.
Proof. intros w H. exact H. Qed.
#[global] Instance wf_kept_trans : Transitive wf_kept.
Proof. intros w1 w2 w3 H1 H2 H. by apply H2, H1. Qed.






Lemma extractall_grows (z : ZipFile) (target : string) :
  keeps grows (extractall z target).
Proof.
  apply (keeps_extractall grows (λ _, True)); [| | | | done].
  - intros e w _. by apply grows_same_fs.
  - intros l w r w' E. by apply mkdir_at_touches in E as [E _].
  - intros l w r w' E. by apply truncate_at_touches in E as [E _].
  - intros l data w r w' E. by apply append_at_touches in E as [E _].
Qed.

Section FetchThenLoad.

Variable zip_decode : list byte → option (list (string * option (list byte))).
Variable cell : Type.
Variable csv_parse : list byte → outcome (DataFrame cell).


(** X6.  Once the first download has completed, nothing that [download_all]
    does afterwards, whether it completes or raises, alters the archive:
    the later downloads go to other files and the extraction goes below
    [occupancy]. *)
Theorem archive_survives (path : string) (w w1 w' : world) (r : outcome unit) :
  download_data OCCUPANCY.1 OCCUPANCY.2 path w = (Ok tt, w1) →
  download_all zip_decode path w = (r, w') →
  ∃ b1 rest,
    pending w = Ok b1 :: rest ∧
    file_content w' (os_path_join path "occupancy.zip") = Some b1.
Proof.
  intros H1 H.
  destruct (download_data_plain _ _ _ _ _ plain_occupancy H1)
    as (b1 & rest & d & Hp & _ & Hr & Hd & Hf & _).
  exists b1, rest. split; [exact Hp |].
  change (OCCUPANCY.2) with "occupancy.zip" in Hf.
  set (x := "occupancy.zip" :: d) in *.
  pose proof (resolve_join_plain w1 path "occupancy.zip" d eq_refl Hr Hd) as Hrx.
  destruct (resolve_norm_loc _ _ _ Hr) as [Hn Hne].
  assert (∀ v, grows w1 v → fs v !! x = Some (File b1) →
            file_content v (os_path_join path "occupancy.zip") = Some b1) as Hfin.
  { intros v Hg Hv. unfold file_content.
    rewrite (resolve_grows _ _ _ _ Hg Hrx). fold x. by rewrite Hv. }
  assert (∀ name v v' r',
            plain_name name = true → name ≠ "occupancy.zip" →
            grows w1 v → fs v !! x = Some (File b1) →
            download_data name name path v = (r', v') ∨
            (∃ url, download_data url name path v = (r', v')) →
            grows w1 v' ∧ fs v' !! x = Some (File b1)) as Hstep.
  { intros name v v' r' Hpl Hnm Hg Hv Hrun.
    assert (∃ url, download_data url name path v = (r', v')) as (url & Hdd).
    { destruct Hrun as [? | ?]; eauto. }
    apply download_data_frame in Hdd as [Hg' Hfr].
    split; [by apply (grows_trans _ v) |].
    rewrite Hfr; [exact Hv | |].
    - rewrite (norm_loc_grows _ _ _ Hg), Hn. unfold x.
      intros E. apply (f_equal length) in E. simpl in E. lia.
    - rewrite norm_loc_join, (norm_loc_grows _ _ _ Hg), Hn by done.
      unfold x. congruence. }
  rewrite download_all_unroll in H. rewrite bind_run in H.
  rewrite bind_run, H1 in H. rewrite bind_run in H.
  destruct (download_data CREDIT.1 CREDIT.2 path w1) as [[[]|e] w2] eqn:E2;
    (destruct (Hstep "credit.xls" w1 w2 _ eq_refl ltac:(done)
                (grows_refl w1) Hf (or_intror (ex_intro _ _ E2)))
      as [Hg2 Hf2]);
    [| injection H as <- <-; by apply Hfin].
  rewrite bind_run in H.
  destruct (download_data CONCRETE.1 CONCRETE.2 path w2) as [[[]|e] w3] eqn:E3;
    (destruct (Hstep "concrete.xls" w2 w3 _ eq_refl ltac:(done)
                Hg2 Hf2 (or_intror (ex_intro _ _ E3)))
      as [Hg3 Hf3]);
    [| injection H as <- <-; by apply Hfin].
  change (ret () w3) with (Ok (), w3) in H. cbv iota in H.
  rewrite bind_run, zipfile_ZipFile_run in H.
  set (w4 := emit (EvOpenRB (os_path_join path "occupancy.zip")) w3) in *.
  assert (grows w1 w4) as Hg4.
  { apply (grows_trans _ w3); [exact Hg3 | by apply grows_same_fs]. }
  assert (fs w4 !! x = Some (File b1)) as Hf4 by exact Hf3.
  destruct (match resolve w3 (os_path_join path "occupancy.zip") with
            | Ok l => _ | Raise e => _ end) as [z|e];
    [| injection H as <- <-; by apply Hfin].
  assert (grows w4 w') as Hg5.
  { exact (extractall_grows _ _ _ _ _ H). }
  apply (extractall_preserve (λ y, y = x)) in H as [_ Hpres].
  - apply Hfin; [by apply (grows_trans _ w4) | by apply (Hpres x _ eq_refl)].
  - intros arc.
    rewrite norm_loc_join, (norm_loc_grows _ _ _ Hg4), Hn by done.
    unfold x. intros E. apply (f_equal length) in E as El.
    rewrite length_app in El. simpl in El.
    destruct arc as [|a arc]; [| simpl in El; lia].
    simpl in E. congruence.
Qed.

End FetchThenLoad.


Lemma archive_survives_witness :
  ∃ b1 rest,
    pending Sample.full = Ok b1 :: rest ∧
    file_content (download_all Sample.unzip "data" Sample.full).2
      (os_path_join "data" "occupancy.zip") = Some b1.
Proof.
  apply (archive_survives Sample.unzip "data" Sample.full
           (download_data OCCUPANCY.1 OCCUPANCY.2 "data" Sample.full).2
           (download_all Sample.unzip "data" Sample.full).2
           (download_all Sample.unzip "data" Sample.full).1).
  - vm_compute. reflexivity.
  - destruct (download_all Sample.unzip "data" Sample.full). reflexivity.
Defined.

(** ** What [download_all] leaves behind *)

Lemma below_occupancy (arc d : loc) (name : string) :
  name ≠ "occupancy" → arc ++ "occupancy" :: d ≠ name :: d.
Proof.
  intros Hn E. apply (f_equal length) in E as El.
  rewrite length_app in El. simpl in El.
  destruct arc as [|a arc]; [simpl in E; congruence | simpl in El; lia].
Qed.

(** The extraction goes below [occupancy]: an entry of [path] under
    another name is as it was, whatever the outcome. *)
Lemma extractall_keeps_entry (z : ZipFile) (path name : string)
    (w w' : world) (r : outcome unit) (d : loc) (n : node) :
  resolve w path = Ok d → name ≠ "occupancy" →
  fs w !! (name :: d) = Some n →
  extractall z (os_path_join path "occupancy") w = (r, w') →
  grows w w' ∧ fs w' !! (name :: d) = Some n.
Proof.
  intros Hr Hn Hf H. destruct (resolve_norm_loc _ _ _ Hr) as [Hnl Hne].
  split; [exact (extractall_grows _ _ _ _ _ H) |].
  apply (extractall_preserve (λ y, y = name :: d)) in H as [_ Hp].
  - by apply (Hp _ _ eq_refl).
  - intros arc. rewrite norm_loc_join, Hnl by done. by apply below_occupancy.
Qed.

(** Whatever its outcome, the loop of the downloads makes only the calls
    of [download_data]. *)
Lemma downloads_calls (path : string) (w w3 : world) (r : outcome unit) :
  for_each [OCCUPANCY; CREDIT; CONCRETE]
    (λ d, download_data d.1 d.2 path) w = (r, w3) →
  ∃ es, log w3 = log w ++ es ∧ Forall download_call es.
Proof.
  intros E. apply (keeps_for_each (logs download_call)) in E; [exact E |].
  intros d. apply download_data_logs.
Qed.

Lemma download_call_kind (es : list event) (e : event) :
  Forall download_call es → e ∈ es →
  call_of e ≠ COpenRB ∧ call_of e ≠ CExtractAll.
Proof.
  intros Hall Hin. pose proof (proj1 (Forall_forall _ _) Hall e Hin) as Hc.
  unfold download_call in Hc.
  repeat (apply elem_of_cons in Hc as [-> | Hc]; [by split |]).
  by apply elem_of_nil in Hc.
Qed.

Section FetchEffect.

Variable zip_decode : list byte → option (list (string * option (list byte))).


(** C10.  The archive [download_all] opens is the file it has just
    written.  Whatever the outcome, the only file opened for reading is
    [os.path.join(path, name)] for the name of the OCCUPANCY tuple and the
    only extraction target is [os.path.join(path, 'occupancy')].  Once the
    three downloads have completed, the run has written the first response
    to that file and opened it afterwards; the file holds that response
    when it is opened and at the end; what is extracted are the members
    decoded from that response; and the archive and the target
    [occupancy] are entries of the one directory [path]. *)
Theorem archive_is_the_download (path : string) (w w' : world)
    (r : outcome unit) :
  download_all zip_decode path w = (r, w') →
  ∃ es,
    log w' = log w ++ es ∧
    (∀ q, EvOpenRB q ∈ es → q = os_path_join path OCCUPANCY.2) ∧
    (∀ t, EvExtractAll t ∈ es → t = os_path_join path "occupancy") ∧
    ∀ w3,
      for_each [OCCUPANCY; CREDIT; CONCRETE]
        (λ d, download_data d.1 d.2 path) w = (Ok tt, w3) →
      ∃ b1 rest d es1 es2 es3,
        pending w = Ok b1 :: rest ∧
        es = es1 ++ EvWrite (os_path_join path OCCUPANCY.2) b1 ::
             es2 ++ EvOpenRB (os_path_join path OCCUPANCY.2) :: es3 ∧
        file_content w3 (os_path_join path OCCUPANCY.2) = Some b1 ∧
        file_content w' (os_path_join path OCCUPANCY.2) = Some b1 ∧
        (r, w') =
          match zip_decode b1 with
          | Some ms =>
              extractall {| zpath := os_path_join path OCCUPANCY.2;
                            members := ms |}
                (os_path_join path "occupancy")
                (emit (EvOpenRB (os_path_join path OCCUPANCY.2)) w3)
          | None =>
              (Raise BadZipFile,
               emit (EvOpenRB (os_path_join path OCCUPANCY.2)) w3)
          end ∧
        resolve w' path = Ok d ∧ fs w' !! d = Some Dir ∧
        resolve w' (os_path_join path OCCUPANCY.2) = Ok (OCCUPANCY.2 :: d) ∧
        norm_loc w' (os_path_join path "occupancy") = "occupancy" :: d.
Proof.
  intros H. unfold download_all in H. rewrite bind_run in H.
  destruct (for_each _ _ w) as [[[]|e] w3] eqn:E.
  2:{ injection H as <- <-.
      destruct (downloads_calls _ _ _ _ E) as (es & Hl & Hall).
      exists es. split; [exact Hl |].
      split; [intros q Hin; by destruct (download_call_kind es _ Hall Hin) |].
      split; [intros t Hin; by destruct (download_call_kind es _ Hall Hin) |].
      intros w3' [=]. }
  destruct (downloads_Ok _ _ _ E)
    as (b1 & b2 & b3 & rest & d & Hp & Hq & Hg & Hr & Hd & Hf1 & _ & _ & Hl).
  pose proof (resolve_join_plain w3 path OCCUPANCY.2 d eq_refl Hr Hd) as Hrz.
  destruct (resolve_norm_loc _ _ _ Hr) as [Hn Hne].
  rewrite bind_run, zipfile_ZipFile_run in H.
  change (os_path_join path "occupancy.zip")
    with (os_path_join path OCCUPANCY.2) in H.
  rewrite Hrz, Hf1 in H.
  set (p := os_path_join path OCCUPANCY.2) in *.
  set (w4 := emit (EvOpenRB p) w3) in *.
  set (es1 := EvExists path ::
                (if path_exists w path then [] else [EvMkdir path]) ++
                [EvGet OCCUPANCY.1; EvOpenWB p]).
  set (es2 := EvExists path :: download_events CREDIT path b2 ++
              EvExists path :: download_events CONCRETE path b3).
  assert (log w4 = log w ++ es1 ++ EvWrite p b1 :: es2 ++ [EvOpenRB p]) as Hl4.
  { unfold w4, es1, es2. simpl. rewrite Hl. unfold download_events. simpl.
    rewrite <- !app_assoc. simpl. by rewrite <- !app_assoc. }
  assert (∀ e es3, e ∈ es1 ++ EvWrite p b1 :: es2 ++ EvOpenRB p :: es3 →
            e = EvOpenRB p ∨ e ∈ es3 ∨
            (call_of e ≠ COpenRB ∧ call_of e ≠ CExtractAll)) as Hkind.
  { intros ev es3 Hin. unfold es1, es2, download_events in Hin.
    destruct (path_exists w path); simpl in Hin;
      repeat (apply elem_of_cons in Hin as [-> | Hin];
              [first [by left | by right; right] |]);
      by right; left. }
  assert (file_content w3 p = Some b1) as Hc3.
  { unfold file_content. by rewrite Hrz, Hf1. }
  assert (∀ v, grows w4 v → fs v !! (OCCUPANCY.2 :: d) = Some (File b1) →
            file_content v p = Some b1 ∧
            resolve v path = Ok d ∧ fs v !! d = Some Dir ∧
            resolve v p = Ok (OCCUPANCY.2 :: d) ∧
            norm_loc v (os_path_join path "occupancy") = "occupancy" :: d)
    as Hend.
  { intros v Hgv Hv.
    assert (resolve v p = Ok (OCCUPANCY.2 :: d)) as Hrv
      by exact (resolve_grows w4 _ _ _ Hgv Hrz).
    split; [unfold file_content; by rewrite Hrv, Hv |].
    split; [exact (resolve_grows w4 _ _ _ Hgv Hr) |].
    split; [exact (grows_dir _ _ Hgv _ Hd) |]. split; [exact Hrv |].
    rewrite norm_loc_join, (norm_loc_grows w4 v _ Hgv) by done.
    f_equal. exact Hn. }
  destruct (zip_decode b1) as [ms|] eqn:Ez.
  - pose proof (extractall_log _ _ _ _ _ H) as [Hlx _].
    destruct (extractall_keeps_entry _ path OCCUPANCY.2 w4 w' _ d _
                Hr ltac:(done) Hf1 H) as [Hg4 Hk1].
    exists (es1 ++ EvWrite p b1 :: es2 ++
            EvOpenRB p :: [EvExtractAll (os_path_join path "occupancy")]).
    split.
    { rewrite Hlx, Hl4, <- !app_assoc. simpl. by rewrite <- !app_assoc. }
    split.
    { intros q Hin. destruct (Hkind _ _ Hin) as [[= ->] | [Hx | [Hx _]]];
        [done | | done].
      apply elem_of_cons in Hx as [[=] | Hx]. by apply elem_of_nil in Hx. }
    split.
    { intros t Hin. destruct (Hkind _ _ Hin) as [[=] | [Hx | [_ Hx]]];
        [| done].
      apply elem_of_cons in Hx as [[= ->] | Hx]; [done |].
      by apply elem_of_nil in Hx. }
    intros w3' [= <-].
    exists b1, (Ok b2 :: Ok b3 :: rest), d, es1, es2,
      [EvExtractAll (os_path_join path "occupancy")].
    split; [exact Hp |]. split; [reflexivity |]. split; [exact Hc3 |].
    destruct (Hend w' Hg4 Hk1) as (Hc & Hrest).
    split; [exact Hc |]. split; [by rewrite Ez, <- H |]. exact Hrest.
  - injection H as <- <-.
    exists (es1 ++ EvWrite p b1 :: es2 ++ EvOpenRB p :: []).
    split; [exact Hl4 |].
    split.
    { intros q Hin. destruct (Hkind _ _ Hin) as [[= ->] | [Hx | [Hx _]]];
        [done | | done].
      by apply elem_of_nil in Hx. }
    split.
    { intros t Hin. destruct (Hkind _ _ Hin) as [[=] | [Hx | [_ Hx]]];
        [| done].
      by apply elem_of_nil in Hx. }
    intros w3' [= <-]. exists b1, (Ok b2 :: Ok b3 :: rest), d, es1, es2, [].
    split; [exact Hp |]. split; [reflexivity |]. split; [exact Hc3 |].
    destruct (Hend w4 (grows_refl w4) Hf1) as (Hc & Hrest).
    split; [exact Hc |]. split; [by rewrite Ez |]. exact Hrest.
Qed.

End FetchEffect.


Lemma archive_is_the_download_witness :
  ∃ b1, file_content Sample.extracted (os_path_join "data" OCCUPANCY.2)
        = Some b1.
Proof.
  destruct (archive_is_the_download Sample.unzip "data" Sample.fresh
              Sample.extracted (Ok tt))
    as (es & _ & _ & _ & H); [vm_compute; reflexivity |].
  destruct (H (for_each [OCCUPANCY; CREDIT; CONCRETE]
                 (λ d, download_data d.1 d.2 "data") Sample.fresh).2)
    as (b1 & rest & d & es1 & es2 & es3 & _ & _ & _ & Hc & _);
    [vm_compute; reflexivity |].
  exists b1. exact Hc.
Defined.
